(** * cursor-notifier: the tmux pane monitor of [cursor_notifier.py]

    A shallow embedding of the [Notifier] class: the activity classifier
    ([_detect_active] with [TOKEN_REGEX]), the monitoring filter
    ([_should_monitor_pane]), the transition tracker
    ([_maybe_notify_transition]) and the notification dispatcher
    ([_send_idle_notification], [_get_git_branch], [_post_discord_message]).

    Python [str] values are sequences of Unicode code points: [list N].
    Calls that leave the process (time, subprocesses, HTTP, stdout) are events
    of a small free monad, answered by an environment. *)

From Stdlib Require Import Floats Ascii String DecimalString.
From stdpp Require Import gmap list strings.

Set Default Proof Using "Type".
Open Scope N_scope.

(** ** Python strings *)

Module Str.

(** A Python [str]: its code points, in order. *)
Abbreviation str := (list N).

(** A literal of the source, given by its ASCII spelling. *)
Definition lit (s : string) : str :=
  Ascii.N_of_ascii <$> list_ascii_of_string s.

Arguments lit : simpl never.

(** Line feed, the separator [_detect_active] joins its tail with. *)
Definition LF : N := 10.
Definition CR : N := 13.

(** [Py_UNICODE_ISSPACE]: what [str.strip()] removes and what [\s] matches in
    a [str] pattern. *)
Definition isspace (c : N) : bool :=
  ((9 <=? c) && (c <=? 13)) || ((28 <=? c) && (c <=? 31)) || (c =? 32)
  || (c =? 0x85) || (c =? 0xA0) || (c =? 0x1680)
  || ((0x2000 <=? c) && (c <=? 0x200A))
  || (c =? 0x2028) || (c =? 0x2029) || (c =? 0x202F) || (c =? 0x205F)
  || (c =? 0x3000).

(** [Py_UNICODE_ISLINEBREAK]: where [str.splitlines()] cuts. *)
Definition islinebreak (c : N) : bool :=
  ((10 <=? c) && (c <=? 13)) || ((28 <=? c) && (c <=? 30))
  || (c =? 0x85) || (c =? 0x2028) || (c =? 0x2029).

Definition ascii_isdigit (c : N) : bool := (48 <=? c) && (c <=? 57).

Definition ascii_isalpha (c : N) : bool :=
  ((65 <=? c) && (c <=? 90)) || ((97 <=? c) && (c <=? 122)).

Definition ascii_isalnum (c : N) : bool := ascii_isalpha c || ascii_isdigit c.

Definition ascii_islower (c : N) : bool := (97 <=? c) && (c <=? 122).

Fixpoint lstrip (s : str) : str :=
  match s with
  | c :: s' => if isspace c then lstrip s' else s
  | [] => []
  end.

Definition rstrip (s : str) : str := reverse (lstrip (reverse s)).

(** [s.strip()] *)
Definition strip (s : str) : str := rstrip (lstrip s).

Arguments strip : simpl never.

(** [s.splitlines()], with [line] the characters of the line being read. A
    carriage return directly followed by a line feed is one break; a break
    at the very end opens no further line. *)
Fixpoint splitlines_from (line : str) (s : str) : list str :=
  match s with
  | [] => match line with [] => [] | _ => [line] end
  | c :: s' =>
      if islinebreak c then
        line :: match s' with
                | d :: s'' =>
                    if (c =? CR) && (d =? LF) then splitlines_from [] s''
                    else splitlines_from [] s'
                | [] => []
                end
      else splitlines_from (line ++ [c]) s'
  end.

Definition splitlines (s : str) : list str := splitlines_from [] s.

(** [sep.join(parts)] *)
Fixpoint join (sep : str) (parts : list str) : str :=
  match parts with
  | [] => []
  | [p] => p
  | p :: ps => p ++ sep ++ join sep ps
  end.

(** [xs[-n:]] for a positive [n]. *)
Definition last_n {A} (n : nat) (xs : list A) : list A :=
  drop (length xs - n) xs.

(** A non-empty [str] is truthy. *)
Definition nonempty (s : str) : bool :=
  match s with [] => false | _ => true end.

(** [str(n)] and [f"{n}"] for an [int]. *)
Definition of_Z (n : Z) : str :=
  lit (DecimalString.NilZero.string_of_int (Z.to_int n)).

End Str.
Import Str.

(** ** The Unicode character database

    [\d] and [\w] of a [str] pattern read the interpreter's Unicode tables
    ([Py_UNICODE_ISDECIMAL], [Py_UNICODE_ISALNUM]), which differ between
    Python versions. They are taken as given, with what every version
    guarantees: their values on ASCII, that a decimal digit is alphanumeric,
    that no white space is, and that the long s (U+017F) is a letter. *)

Class UnicodeDB := {
  isdecimal : N -> bool;
  isalnum : N -> bool;
  isdecimal_ascii : forall c, c < 128 -> isdecimal c = ascii_isdigit c;
  isalnum_ascii : forall c, c < 128 -> isalnum c = ascii_isalnum c;
  isdecimal_isalnum : forall c, isdecimal c = true -> isalnum c = true;
  isspace_not_alnum : forall c, isspace c = true -> isalnum c = false;
  isalnum_long_s : isalnum 0x17F = true
}.

(** ** Regular expressions: the fragment [TOKEN_REGEX] is written in *)

Module Re.

(** One-character items of a pattern compiled with [re.IGNORECASE]. *)
Inductive cclass :=
| Literal (c : N)   (* an ASCII letter of the pattern, any case *)
| Digit             (* \d *)
| Space.            (* \s *)

Inductive regex :=
| Empty                       (* the empty pattern *)
| Chr (cc : cclass)
| Plus (cc : cclass)          (* cc+, greedy *)
| WordBoundary                (* \b *)
| Seq (r1 r2 : regex)
| Alt (r1 r2 : regex).        (* r1|r2, r1 tried first *)

(** The characters an ASCII lower-case letter [c] of an IGNORECASE [str]
    pattern accepts: both cases, and the few other characters whose lower
    case is [c] or that the engine treats as equivalent to it (the dotted and
    dotless i, the long s, the Kelvin sign). *)
Definition ignorecase_literal (c ch : N) : bool :=
  (ch =? c)
  || (ascii_islower c && (ch =? c - 32))
  || ((c =? 105) && ((ch =? 0x130) || (ch =? 0x131)))
  || ((c =? 115) && (ch =? 0x17F))
  || ((c =? 107) && (ch =? 0x212A)).

Section Engine.
Context `{UnicodeDB}.

(** [\w] *)
Definition isword (c : N) : bool := isalnum c || (c =? 95).

Definition accepts (cc : cclass) (ch : N) : bool :=
  match cc with
  | Literal c => ignorecase_literal c ch
  | Digit => isdecimal ch
  | Space => isspace ch
  end.

Definition isword_at (o : option N) : bool :=
  match o with Some c => isword c | None => false end.

(** [\b] between the character before the position and the one at it. *)
Definition at_boundary (prev : option N) (rest : str) : bool :=
  xorb (isword_at prev) (isword_at (head rest)).

(** The ways [cc+] consumes a prefix of [s], longest first: the last
    character consumed and what is left. *)
Fixpoint ends_plus (cc : cclass) (s : str) : list (option N * str) :=
  match s with
  | c :: s' => if accepts cc c then ends_plus cc s' ++ [(Some c, s')] else []
  | [] => []
  end.

(** The ways [r] matches at a position, in the order the backtracking engine
    tries them: the character before the end of the match, and the text after
    it. [prev] is the character before the position. *)
Fixpoint ends (r : regex) (prev : option N) (s : str) : list (option N * str) :=
  match r with
  | Empty => [(prev, s)]
  | Chr cc =>
      match s with
      | c :: s' => if accepts cc c then [(Some c, s')] else []
      | [] => []
      end
  | Plus cc => ends_plus cc s
  | WordBoundary => if at_boundary prev s then [(prev, s)] else []
  | Seq r1 r2 => ends r1 prev s ≫= (fun m => ends r2 m.1 m.2)
  | Alt r1 r2 => ends r1 prev s ++ ends r2 prev s
  end.

(** [pattern.search]: the first position, from the left, with a match; the
    span [(start, end)] of that match. *)
Fixpoint search_from (r : regex) (pos : nat) (prev : option N) (s : str)
  : option (nat * nat) :=
  match ends r prev s with
  | m :: _ => Some (pos, (pos + (length s - length m.2))%nat)
  | [] =>
      match s with
      | c :: s' => search_from r (S pos) (Some c) s'
      | [] => None
      end
  end.

Definition search (r : regex) (s : str) : option (nat * nat) :=
  search_from r 0 None s.

End Engine.

Arguments isword {_} _ : simpl never.

(** A word of the pattern, letter by letter. *)
Fixpoint word (w : str) : regex :=
  match w with
  | [] => Empty
  | c :: w' => Seq (Chr (Literal c)) (word w')
  end.

End Re.
Import Re.

(** ** The activity classifier *)

Definition tokens : str := Eval cbv in lit "tokens".

(** [TOKEN_REGEX = re.compile(r"\b(\d+\s+tokens|tokens)\b", re.IGNORECASE)] *)
Definition TOKEN_REGEX : regex :=
  Seq WordBoundary
    (Seq (Alt (Seq (Plus Digit) (Seq (Plus Space) (word tokens)))
              (word tokens))
         WordBoundary).

Section Classifier.
Context `{UnicodeDB}.

(** [[ln.strip() for ln in text.splitlines() if ln.strip()]] *)
Definition stripped_lines (text : str) : list str :=
  filter (fun ln => nonempty ln = true) (strip <$> splitlines text).

(** [lines[-20:]] of the above: the tail the classifier looks at. *)
Definition tail_lines (text : str) : list str :=
  last_n 20 (stripped_lines text).

(** [Notifier._detect_active] *)
Definition _detect_active (text : str) : bool :=
  let lines := stripped_lines text in
  let tail := join [LF] (last_n 20 lines) in
  bool_decide (is_Some (search TOKEN_REGEX tail)).

End Classifier.

(** ** Effects

    What a method does outside the process is an event that the environment
    answers. The two calls on [self] that the specification counts,
    [self.log(...)] and [self._send_idle_notification(...)], are events as
    well: a run records them, and [interp] with [methods] gives them their
    bodies. *)

(** [subprocess.CompletedProcess], as far as the code reads it. *)
Record CompletedProcess := {
  returncode : Z;
  stdout : str;
  stderr : str
}.

(** A raised exception: its class and [str(exc)]. *)
Inductive exn := Exception (class message : str).

Definition exn_str (exc : exn) : str :=
  match exc with Exception _ message => message end.

Definition RuntimeError (message : str) : exn :=
  Exception (lit "RuntimeError") message.

Record Pane := {
  session_name : str;
  window_index : str;
  pane_index : str;
  pane_id : str;
  is_active_flag : bool;
  current_path : str;
  pane_pid : str;
  current_command : str
}.

(** [Pane.human_ref]: [f"{session_name}:{window_index}.{pane_index}"] *)
Definition human_ref (pane : Pane) : str :=
  session_name pane ++ lit ":" ++ window_index pane ++ lit "."
  ++ pane_index pane.

(** The [urllib.request.Request] the webhook is posted with; [data] is the
    JSON object before [json.dumps] and the UTF-8 encoding. *)
Record Request := {
  url : str;
  data : list (str * str);
  headers : list (str * str);
  method : str
}.

Inductive event : Type -> Type :=
| time_time : event float
| time_strftime (format : str) : event str
| print (line : str) : event unit
| time_sleep (seconds : Z) : event unit
| subprocess_run (argv : list str) (timeout : Z)
    : event (exn + CompletedProcess)
| urlopen (req : Request) (timeout : Z) : event (exn + Z)
| call_log (message : str) : event unit
| call_send_idle_notification (pane : Pane) : event unit.

(** What a run did: each event with the answer it got. *)
Inductive effect :=
| read_clock (t : float)
| formatted_time (format r : str)
| printed (line : str)
| slept (seconds : Z)
| ran (argv : list str) (timeout : Z) (r : exn + CompletedProcess)
| opened (req : Request) (timeout : Z) (r : exn + Z)
| logged (message : str)
| notified (pane : Pane).

Definition effect_of {X} (e : event X) : X -> effect :=
  match e in event X return X -> effect with
  | time_time => read_clock
  | time_strftime format => formatted_time format
  | print line => fun _ => printed line
  | time_sleep seconds => fun _ => slept seconds
  | subprocess_run argv timeout => ran argv timeout
  | urlopen req timeout => opened req timeout
  | call_log message => fun _ => logged message
  | call_send_idle_notification pane => fun _ => notified pane
  end.

Inductive Prog (A : Type) : Type :=
| Ret (a : A)
| Vis {X : Type} (e : event X) (k : X -> Prog A).

Arguments Ret {A} a.
Arguments Vis {A X} e k.

Fixpoint bind {A B} (p : Prog A) (f : A -> Prog B) : Prog B :=
  match p with
  | Ret a => f a
  | Vis e k => Vis e (fun x => bind (k x) f)
  end.

Definition trigger {X} (e : event X) : Prog X := Vis e Ret.

#[global] Instance Prog_ret : MRet Prog := @Ret.
#[global] Instance Prog_bind : MBind Prog := fun A B f p => bind p f.

(** The environment: its answer to an event, given all that happened so
    far. *)
Definition env := forall X, list effect -> event X -> X.

(** Running a program after the effects [past]: its result and the effects
    it added. *)
Fixpoint exec {A} (world : env) (past : list effect) (p : Prog A)
  : A * list effect :=
  match p with
  | Ret a => (a, [])
  | Vis e k =>
      let x := world _ past e in
      let eff := effect_of e x in
      let '(a, tr) := exec world (past ++ [eff]) (k x) in
      (a, eff :: tr)
  end.

(** Replacing events by programs. *)
Fixpoint interp (h : forall X, event X -> Prog X) {A} (p : Prog A) : Prog A :=
  match p with
  | Ret a => Ret a
  | Vis e k => x ← h _ e; interp h (k x)
  end.

(** ** The notifier *)

(** [PaneState]; a fresh one is [PaneState(None, 0.0)]. *)
Record PaneState := {
  last_seen_active : option bool;
  last_transition_ts : float
}.

Definition PaneState_new : PaneState :=
  {| last_seen_active := None; last_transition_ts := 0%float |}.

(** A compiled pattern of the configuration, by what [search] finds: the
    code only asks whether there is a match. *)
Definition Pattern := str -> bool.

(** The attributes of a [Notifier]. *)
Record Notifier := {
  webhook_url : option str;
  interval_seconds : Z;
  scan_lines : Z;
  match_command : option Pattern;
  match_text : option Pattern;
  verbose : bool;
  dry_run : bool;
  pane_id_to_state : gmap (list N) PaneState
}.

(** [Notifier.__init__], given [re.compile]. *)
Definition Notifier_init (re_compile : str -> bool -> Pattern)
    (webhook_url : option str) (interval_seconds scan_lines : Z)
    (match_command_regex match_text_regex : str) (verbose dry_run : bool)
  : Notifier :=
  {| webhook_url := webhook_url;
     interval_seconds := Z.max 2 interval_seconds;
     scan_lines := Z.max 20 scan_lines;
     match_command :=
       if nonempty match_command_regex
       then Some (re_compile match_command_regex false) else None;
     match_text :=
       if nonempty match_text_regex
       then Some (re_compile match_text_regex true) else None;
     verbose := verbose;
     dry_run := dry_run;
     pane_id_to_state := ∅ |}.

(** The notifier with the state of one pane written. *)
Definition set_state (self : Notifier) (id : str) (state : PaneState)
  : Notifier :=
  {| webhook_url := webhook_url self;
     interval_seconds := interval_seconds self;
     scan_lines := scan_lines self;
     match_command := match_command self;
     match_text := match_text self;
     verbose := verbose self;
     dry_run := dry_run self;
     pane_id_to_state := <[id := state]> (pane_id_to_state self) |}.

Definition TMUX : str := lit "tmux".

(** [str(b)] for a [bool]. *)
Definition of_bool (b : bool) : str := if b then lit "True" else lit "False".

(** [Notifier.log] *)
Definition log (self : Notifier) (message : str) : Prog unit :=
  if verbose self then
    ts ← trigger (time_strftime (lit "%H:%M:%S"));
    trigger (print (lit "[" ++ ts ++ lit "] " ++ message))
  else Ret tt.

(** [Notifier._capture_pane_text]; an exception is a result on the left. *)
Definition _capture_pane_text (self : Notifier) (pane_id : str) (lines : Z)
  : Prog (exn + str) :=
  r ← trigger (subprocess_run
         [TMUX; lit "capture-pane"; lit "-p"; lit "-J"; lit "-t"; pane_id;
          lit "-S"; lit "-" ++ of_Z lines] 5);
  match r with
  | inl exc => Ret (inl exc)
  | inr cp =>
      if negb (returncode cp =? 0)%Z then
        let err := strip (stderr cp) in
        Ret (inl (RuntimeError
               (if nonempty err then err
                else lit "tmux capture-pane failed for " ++ pane_id)))
      else Ret (inr (stdout cp))
  end.

(** [Notifier._should_monitor_pane] *)
Definition _should_monitor_pane (self : Notifier) (pane : Pane) : Prog bool :=
  let match_by_cmd :=
    match match_command self with
    | Some pattern => pattern (current_command pane)
    | None => false
    end in
  if match_by_cmd then Ret true
  else
    match match_text self with
    | Some pattern =>
        r ← _capture_pane_text self (pane_id pane) 40;
        match r with
        | inr tail_text => if pattern tail_text then Ret true else Ret false
        | inl _ => Ret false
        end
    | None => Ret false
    end.

(** [Notifier._get_git_branch] *)
Definition _get_git_branch (self : Notifier) (path : str) : Prog (option str) :=
  r ← trigger (subprocess_run
         [lit "git"; lit "-C"; path; lit "rev-parse"; lit "--abbrev-ref";
          lit "HEAD"] 5);
  match r with
  | inr cp =>
      let out := strip (stdout cp) in
      if (returncode cp =? 0)%Z && nonempty out
         && negb (bool_decide (out = lit "HEAD"))
      then Ret (Some out) else Ret None
  | inl _ => Ret None
  end.

(** [Notifier._post_discord_message] *)
Definition _post_discord_message (self : Notifier) (content : str)
  : Prog (exn + unit) :=
  match webhook_url self with
  | Some (c :: u) =>
      let req := {| url := c :: u;
                    data := [(lit "content", content)];
                    headers := [(lit "Content-Type", lit "application/json")];
                    method := lit "POST" |} in
      r ← trigger (urlopen req 10);
      match r with
      | inr status =>
          if negb ((200 <=? status)%Z && (status <? 300)%Z)
          then Ret (inl (RuntimeError
                      (lit "Discord webhook status " ++ of_Z status)))
          else Ret (inr tt)
      | inl exc => Ret (inl exc)
      end
  | _ => Ret (inl (RuntimeError (lit "webhook_url missing")))
  end.

(** The three characters the source file has between the pane reference and
    the path (U+00E2, U+20AC, U+201D). *)
Definition dash : str := [0xE2; 0x20AC; 0x201D].

(** [Notifier._send_idle_notification] *)
Definition _send_idle_notification (self : Notifier) (pane : Pane)
  : Prog unit :=
  let path := current_path pane in
  branch ← _get_git_branch self path;
  let ref := human_ref pane in
  let message :=
    lit "Cursor-Agent idle in " ++ ref ++ lit " " ++ dash ++ lit " " ++ path in
  let message :=
    match branch with
    | Some (c :: b) => message ++ lit " (branch " ++ (c :: b) ++ lit ")"
    | _ => message
    end in
  trigger (call_log (lit "NOTIFY: " ++ message)) ;;
  if dry_run self then Ret tt
  else
    r ← _post_discord_message self message;
    match r with
    | inr _ => Ret tt
    | inl exc =>
        trigger (call_log (lit "Failed to send webhook: " ++ exn_str exc))
    end.

(** [Notifier._maybe_notify_transition]; it returns the notifier with the
    pane's state as the method leaves it. *)
Definition _maybe_notify_transition (self : Notifier) (pane : Pane)
    (looks_active : bool) (buffer_text : str) : Prog Notifier :=
  let state :=
    default PaneState_new (pane_id_to_state self !! pane_id pane) in
  match last_seen_active state with
  | None =>
      now ← trigger time_time;
      trigger (call_log (lit "Initialized state for " ++ human_ref pane
                         ++ lit ": active=" ++ of_bool looks_active)) ;;
      Ret (set_state self (pane_id pane)
             {| last_seen_active := Some looks_active;
                last_transition_ts := now |})
  | Some seen =>
      if seen && negb looks_active then
        trigger (call_send_idle_notification pane) ;;
        now ← trigger time_time;
        Ret (set_state self (pane_id pane)
               {| last_seen_active := Some looks_active;
                  last_transition_ts := now |})
      else if negb seen && looks_active then
        trigger (call_log (human_ref pane ++ lit " became active again")) ;;
        now ← trigger time_time;
        Ret (set_state self (pane_id pane)
               {| last_seen_active := Some looks_active;
                  last_transition_ts := now |})
      else
        Ret (set_state self (pane_id pane)
               {| last_seen_active := Some looks_active;
                  last_transition_ts := last_transition_ts state |})
  end.

(** The bodies of the calls on [self]: the call stays in the record of the
    run, followed by what the method does. [log] calls nothing on [self];
    [_send_idle_notification] calls [log]. *)
Definition log_method (self : Notifier) : forall X, event X -> Prog X :=
  fun X e =>
    match e in event X return Prog X with
    | call_log message => trigger (call_log message) ;; log self message
    | e => trigger e
    end.

Definition methods (self : Notifier) : forall X, event X -> Prog X :=
  fun X e =>
    match e in event X return Prog X with
    | call_send_idle_notification pane =>
        trigger (call_send_idle_notification pane) ;;
        interp (log_method self) (_send_idle_notification self pane)
    | e => log_method self _ e
    end.

(** A method of [self] with the calls it makes on [self] carried out. *)
Definition carried_out (self : Notifier) {A} (p : Prog A) : Prog A :=
  interp (methods self) p.

Section PollLoop.
Context `{UnicodeDB}.

(** The body of the [for pane in panes] loop of [Notifier.run]. *)
Definition run_pane (self : Notifier) (pane : Pane) : Prog Notifier :=
  monitored ← _should_monitor_pane self pane;
  if negb monitored then Ret self
  else
    r ← _capture_pane_text self (pane_id pane) (scan_lines self);
    match r with
    | inl exc =>
        trigger (call_log (lit "Failed to capture " ++ human_ref pane
                           ++ lit ": " ++ exn_str exc)) ;;
        Ret self
    | inr buffer_text =>
        let looks_active := _detect_active buffer_text in
        _maybe_notify_transition self pane looks_active buffer_text
    end.

(** [for pane in panes: ...] *)
Fixpoint run_panes (self : Notifier) (panes : list Pane) : Prog Notifier :=
  match panes with
  | [] => Ret self
  | pane :: panes' => self' ← run_pane self pane; run_panes self' panes'
  end.

End PollLoop.

(** ** Listing the panes, and one turn of the loop *)

Definition TAB : N := 9.

(** [s.split(sep)] for a separator of one character, with [part] the
    characters of the piece being read: a text without the separator is one
    piece, also when it is empty. *)
Fixpoint str_split_from (sep : N) (part : str) (s : str) : list str :=
  match s with
  | [] => [part]
  | c :: s' =>
      if c =? sep then part :: str_split_from sep [] s'
      else str_split_from sep (part ++ [c]) s'
  end.

Definition str_split (sep : N) (s : str) : list str := str_split_from sep [] s.

(** The format string [fmt] of [_list_tmux_panes]: eight tmux variables,
    tabs between them. *)
Definition list_panes_format : str :=
  join [TAB]
    [lit "#{session_name}"; lit "#{window_index}"; lit "#{pane_index}";
     lit "#{pane_id}"; lit "#{pane_active}"; lit "#{pane_current_path}";
     lit "#{pane_pid}"; lit "#{pane_current_command}"].

(** The body of the loop over the lines of the listing: a line of eight
    fields is a pane, any other line is passed over. *)
Definition pane_of_line (line : str) : option Pane :=
  match str_split TAB line with
  | [session_name; window_index; pane_index; pane_id; active_flag; path; pid;
     cmd] =>
      Some {| session_name := session_name;
              window_index := window_index;
              pane_index := pane_index;
              pane_id := pane_id;
              is_active_flag := bool_decide (active_flag = lit "1");
              current_path := path;
              pane_pid := pid;
              current_command := cmd |}
  | _ => None
  end.

(** [Notifier._list_tmux_panes]; an exception is a result on the left. *)
Definition _list_tmux_panes (self : Notifier) : Prog (exn + list Pane) :=
  r ← trigger (subprocess_run
         [TMUX; lit "list-panes"; lit "-a"; lit "-F"; list_panes_format] 5);
  match r with
  | inl exc => Ret (inl exc)
  | inr cp =>
      if negb (returncode cp =? 0)%Z then
        let err := strip (stderr cp) in
        Ret (inl (RuntimeError
               (if nonempty err then err else lit "tmux list-panes failed")))
      else Ret (inr (omap pane_of_line (splitlines (stdout cp))))
  end.

Section Cycle.
Context `{UnicodeDB}.

(** One turn of the [while True] loop of [Notifier.run]. *)
Definition run_cycle (self : Notifier) : Prog Notifier :=
  r ← _list_tmux_panes self;
  match r with
  | inl exc =>
      trigger (call_log (lit "Failed to list tmux panes: " ++ exn_str exc)) ;;
      trigger (time_sleep (interval_seconds self)) ;;
      Ret self
  | inr panes =>
      self' ← run_panes self panes;
      trigger (time_sleep (interval_seconds self)) ;;
      Ret self'
  end.

(** The first [turns] turns of the [while True] loop of [Notifier.run]. *)
Fixpoint run_turns (turns : nat) (self : Notifier) : Prog Notifier :=
  match turns with
  | O => Ret self
  | S turns' => self' ← run_cycle self; run_turns turns' self'
  end.

End Cycle.


(** * The vocabulary of the specification

    What the statements below are written in: the declarative reading of a
    pattern, token indicators, the events of the state machine, and what is
    read off the record of a run. *)

Section Vocabulary.
Context `{UnicodeDB}.

(** The character before a position that lies [w] after one preceded by
    [prev]. *)
Definition last_char (prev : option N) (w : str) : option N :=
  match last w with Some c => Some c | None => prev end.

(** The declarative reading of a pattern: [den r prev w rest] says that [r]
    matches exactly the text [w] when [prev] is the character before it and
    [rest] the text after it. *)
Fixpoint den (r : regex) (prev : option N) (w rest : str) : Prop :=
  match r with
  | Empty => w = []
  | Chr cc => exists c, w = [c] /\ accepts cc c = true
  | Plus cc => w <> [] /\ Forall (fun c => accepts cc c = true) w
  | WordBoundary => w = [] /\ at_boundary prev rest = true
  | Seq r1 r2 =>
      exists w1 w2, w = w1 ++ w2 /\ den r1 prev w1 (w2 ++ rest)
                    /\ den r2 (last_char prev w1) w2 rest
  | Alt r1 r2 => den r1 prev w rest \/ den r2 prev w rest
  end.

(** [w] spells the pattern word [pat], case ignored. *)
Definition spells (pat w : str) : Prop :=
  Forall2 (fun c ch => ignorecase_literal c ch = true) pat w.

(** Token indicators, as the documentation words them: "the word tokens" and
    "<number> tokens", in any case and as whole words: the character before
    and the character after, if any, are not word characters. *)
Definition standalone_tokens (l : str) : Prop :=
  exists pre w post,
    l = pre ++ w ++ post /\ spells tokens w
    /\ isword_at (last pre) = false /\ isword_at (head post) = false.

Definition counted_tokens (l : str) : Prop :=
  exists pre ds ws w post,
    l = pre ++ ds ++ ws ++ w ++ post
    /\ ds <> [] /\ Forall (fun c => isdecimal c = true) ds
    /\ ws <> [] /\ Forall (fun c => isspace c = true) ws
    /\ spells tokens w
    /\ isword_at (last pre) = false /\ isword_at (head post) = false.

Definition token_indicator (l : str) : Prop :=
  standalone_tokens l \/ counted_tokens l.

End Vocabulary.

(** The non-empty stripped ones among some lines. *)
Definition nonblank (ls : list str) : list str :=
  filter (fun ln => nonempty ln = true) (strip <$> ls).

(** The tables of any Python version restricted to ASCII, with the long s:
    enough to run the classifier on ASCII text. *)
Definition basic_isdecimal (c : N) : bool := (c <? 128) && ascii_isdigit c.

Definition basic_isalnum (c : N) : bool :=
  ((c <? 128) && ascii_isalnum c) || (c =? 0x17F).

(** The events the specification names. *)
Inductive TransitionEvent := Initialized | BecameActive | BecameIdle | NoChange.

(** The state machine as the specification words it: what an observation
    yields, given the last known activity value of the pane, if any. *)
Definition observe (known : option bool) (looks_active : bool)
  : TransitionEvent :=
  match known with
  | None => Initialized
  | Some true => if looks_active then NoChange else BecameIdle
  | Some false => if looks_active then BecameActive else NoChange
  end.

(** The event that a step of the tracker shows, read off what it does: the
    first observation reads the clock and logs "Initialized state ..."; an
    active pane found idle is handed to the dispatcher and the clock is read;
    an idle pane found active is logged as "... became active again" and the
    clock is read; otherwise nothing happens. *)
Definition emitted (step : list effect) : option TransitionEvent :=
  match step with
  | [] => Some NoChange
  | [read_clock _; logged _] => Some Initialized
  | [notified _; read_clock _] => Some BecameIdle
  | [logged _; read_clock _] => Some BecameActive
  | _ => None
  end.

(** The panes handed to the dispatcher, the clock readings and the webhook
    requests of a run. *)
Definition notifications (tr : list effect) : list Pane :=
  omap (fun eff => match eff with notified pane => Some pane | _ => None end) tr.

Definition clock_readings (tr : list effect) : list float :=
  omap (fun eff => match eff with read_clock t => Some t | _ => None end) tr.

Definition deliveries (tr : list effect) : list Request :=
  omap (fun eff => match eff with opened req _ _ => Some req | _ => None end) tr.

Definition log_calls (tr : list effect) : list str :=
  omap (fun eff => match eff with logged m => Some m | _ => None end) tr.

(** What the tracker remembers of a pane: [PaneState()] when it has no
    entry yet. *)
Definition state_of (self : Notifier) (id : str) : PaneState :=
  default PaneState_new (pane_id_to_state self !! id).

(** Feeding the tracker the observations of one pane, one after the other:
    the effects of each step, and the notifier at the end. *)
Fixpoint observations (world : env) (past : list effect) (self : Notifier)
    (pane : Pane) (obs : list (bool * str)) : list (list effect) * Notifier :=
  match obs with
  | [] => ([], self)
  | (looks_active, buffer_text) :: obs' =>
      let '(self', tr) :=
        exec world past
          (_maybe_notify_transition self pane looks_active buffer_text) in
      let '(steps, final) := observations world (past ++ tr) self' pane obs' in
      (tr :: steps, final)
  end.

(** The command [_get_git_branch] runs in [path]. *)
Definition git_argv (path : str) : list str :=
  [lit "git"; lit "-C"; path; lit "rev-parse"; lit "--abbrev-ref"; lit "HEAD"].

(** A notifier that differs in its dry-run flag only. *)
Definition with_dry_run (flag : bool) (self : Notifier) : Notifier :=
  {| webhook_url := webhook_url self;
     interval_seconds := interval_seconds self;
     scan_lines := scan_lines self;
     match_command := match_command self;
     match_text := match_text self;
     verbose := verbose self;
     dry_run := flag;
     pane_id_to_state := pane_id_to_state self |}.

(** The message [_send_idle_notification] builds, given what the branch
    lookup returned, and what the method does once it has it. *)
Definition idle_message (pane : Pane) (branch : option str) : str :=
  let message :=
    lit "Cursor-Agent idle in " ++ human_ref pane ++ lit " " ++ dash
    ++ lit " " ++ current_path pane in
  match branch with
  | Some (c :: b) => message ++ lit " (branch " ++ (c :: b) ++ lit ")"
  | _ => message
  end.

Definition deliver (self : Notifier) (message : str) : Prog unit :=
  trigger (call_log (lit "NOTIFY: " ++ message)) ;;
  if dry_run self then Ret tt
  else
    r ← _post_discord_message self message;
    match r with
    | inr _ => Ret tt
    | inl exc =>
        trigger (call_log (lit "Failed to send webhook: " ++ exn_str exc))
    end.

(** A delivery that fails: [urlopen] raised, or the status is not 2xx. *)
Definition delivery_failed (r : exn + Z) : Prop :=
  match r with
  | inl _ => True
  | inr status => ~ (200 <= status < 300)%Z
  end.

(** Effects of [log]: nothing but the clock format and the printed line. *)
Definition quiet (tr : list effect) : Prop :=
  deliveries tr = [] /\ log_calls tr = [] /\ notifications tr = []
  /\ clock_readings tr = [].

(** A scenario: pane work:0.1 in /home/u/proj, running cursor-agent. *)
Definition example_pane : Pane :=
  {| session_name := lit "work"; window_index := lit "0";
     pane_index := lit "1"; pane_id := lit "%3"; is_active_flag := true;
     current_path := lit "/home/u/proj"; pane_pid := lit "4242";
     current_command := lit "cursor-agent" |}.

Definition example_notifier (dry : bool) : Notifier :=
  {| webhook_url := Some (lit "https://discord.invalid/api/webhooks/1");
     interval_seconds := 7; scan_lines := 120;
     match_command := None; match_text := None;
     verbose := true; dry_run := dry;
     pane_id_to_state := ∅ |}.

(** A world where git names the branch main and the webhook cannot be
    reached. *)
Definition offline_world : env :=
  fun X past e =>
    match e in event X return X with
    | time_time => 1762243200.5%float
    | time_strftime _ => lit "08:00:00"
    | print _ => tt
    | time_sleep _ => tt
    | subprocess_run _ _ =>
        inr {| returncode := 0; stdout := lit "main" ++ [LF]; stderr := [] |}
    | urlopen _ _ =>
        inl (Exception (lit "URLError") (lit "<urlopen error timed out>"))
    | call_log _ => tt
    | call_send_idle_notification _ => tt
    end.

(** The notifier after the pane has been seen active. *)
Definition seen_active (dry : bool) : Notifier :=
  set_state (example_notifier dry) (lit "%3")
    {| last_seen_active := Some true; last_transition_ts := 1762243100%float |}.

(** Every event the program can come to trigger, whatever the answers it
    gets, satisfies [P]. *)
Inductive only (P : forall X, event X -> Prop) {A} : Prog A -> Prop :=
| only_Ret a : only P (Ret a)
| only_Vis X (e : event X) k :
    P X e -> (forall x, only P (k x)) -> only P (Vis e k).

(** The line tmux prints for a pane under [list_panes_format]. *)
Definition line_of_pane (pane : Pane) : str :=
  join [TAB]
    [session_name pane; window_index pane; pane_index pane; pane_id pane;
     (if is_active_flag pane then lit "1" else lit "0");
     current_path pane; pane_pid pane; current_command pane].

(** The listing tmux prints for some panes: a line each, a line feed after
    every line. *)
Definition listing_of (panes : list Pane) : str :=
  panes ≫= (fun pane => line_of_pane pane ++ [LF]).

(** A field tmux can print on a line of the listing: no tab and no line
    break in it. *)
Definition plain_field (f : str) : Prop :=
  Forall (fun c => c <> TAB /\ islinebreak c = false) f.

Definition plain_pane (pane : Pane) : Prop :=
  plain_field (session_name pane) /\ plain_field (window_index pane)
  /\ plain_field (pane_index pane) /\ plain_field (pane_id pane)
  /\ plain_field (current_path pane) /\ plain_field (pane_pid pane)
  /\ plain_field (current_command pane).

(** What the loop itself triggers, without the bodies of the calls on
    [self]: runs of tmux with a timeout of 5 seconds, the clock, the sleep
    and the two calls. *)
Definition loop_event X (e : event X) : Prop :=
  match e with
  | subprocess_run argv timeout => head argv = Some TMUX /\ timeout = 5%Z
  | urlopen _ _ | print _ | time_strftime _ => False
  | _ => True
  end.

(** A request as [_post_discord_message] makes it: a POST to the webhook of
    the notifier, with a JSON object that has a content and nothing else. *)
Definition webhook_request (self : Notifier) (req : Request) : Prop :=
  webhook_url self = Some (url req)
  /\ (exists content, data req = [(lit "content", content)])
  /\ headers req = [(lit "Content-Type", lit "application/json")]
  /\ method req = lit "POST".

(** What a notifier may trigger at all: runs of tmux and git with a timeout
    of 5 seconds; a request to its webhook with a timeout of 10 seconds,
    unless in dry-run mode; prints when verbose. *)
Definition allowed_event (self : Notifier) X (e : event X) : Prop :=
  match e with
  | subprocess_run argv timeout =>
      (head argv = Some TMUX \/ head argv = Some (lit "git")) /\ timeout = 5%Z
  | urlopen req timeout =>
      dry_run self = false /\ webhook_request self req /\ timeout = 10%Z
  | print _ | time_strftime _ => verbose self = true
  | _ => True
  end.

Definition allowed_effect (self : Notifier) (eff : effect) : Prop :=
  match eff with
  | ran argv timeout _ =>
      (head argv = Some TMUX \/ head argv = Some (lit "git")) /\ timeout = 5%Z
  | opened req timeout _ =>
      dry_run self = false /\ webhook_request self req /\ timeout = 10%Z
  | printed _ | formatted_time _ _ => verbose self = true
  | _ => True
  end.

(** The calls that leave the process, as the code bounds them: tmux and git
    with a timeout of 5 seconds, a POST with a timeout of 10 seconds. *)
Definition bounded_effect (eff : effect) : Prop :=
  match eff with
  | ran argv timeout _ =>
      (head argv = Some TMUX \/ head argv = Some (lit "git")) /\ timeout = 5%Z
  | opened req timeout _ => method req = lit "POST" /\ timeout = 10%Z
  | _ => True
  end.

(** Effects by what they are. *)
Definition is_opened (eff : effect) : bool :=
  match eff with opened _ _ _ => true | _ => false end.

Definition is_printed (eff : effect) : bool :=
  match eff with printed _ | formatted_time _ _ => true | _ => false end.

Definition is_slept (eff : effect) : bool :=
  match eff with slept _ => true | _ => false end.

Definition is_ran (eff : effect) : bool :=
  match eff with ran _ _ _ => true | _ => false end.

(** An event other than the sleep. *)
Definition not_sleep X (e : event X) : Prop :=
  match e with time_sleep _ => False | _ => True end.

(** A world for the scenario: tmux lists the pane and shows [buffer] in it,
    git names the branch main, and the webhook answers with [status]. *)
Definition scenario_world (buffer : str) (status : Z) : env :=
  fun X past e =>
    match e in event X return X with
    | time_time => 1762243200.5%float
    | time_strftime _ => lit "08:00:00"
    | print _ => tt
    | time_sleep _ => tt
    | subprocess_run argv _ =>
        match argv with
        | _ :: command :: _ =>
            if bool_decide (command = lit "list-panes") then
              inr {| returncode := 0; stdout := listing_of [example_pane];
                     stderr := [] |}
            else if bool_decide (command = lit "capture-pane") then
              inr {| returncode := 0; stdout := buffer; stderr := [] |}
            else
              inr {| returncode := 0; stdout := lit "main" ++ [LF];
                     stderr := [] |}
        | _ => inl (Exception (lit "FileNotFoundError") (lit "no command"))
        end
    | urlopen _ _ => inr status
    | call_log _ => tt
    | call_send_idle_notification _ => tt
    end.

(** A notifier that monitors by command, after the pane was seen active. *)
Definition watching (dry loud : bool) : Notifier :=
  {| webhook_url := Some (lit "https://discord.invalid/api/webhooks/1");
     interval_seconds := 7; scan_lines := 120;
     match_command := Some (fun s => bool_decide (s = lit "cursor-agent"));
     match_text := None;
     verbose := loud; dry_run := dry;
     pane_id_to_state :=
       {[ lit "%3" := {| last_seen_active := Some true;
                          last_transition_ts := 1762243100%float |} ]} |}.

(** Every result the program can come to return, whatever the answers it
    gets, satisfies [Q]. *)
Inductive yields {A} (Q : A -> Prop) : Prog A -> Prop :=
| yields_Ret a : Q a -> yields Q (Ret a)
| yields_Vis X (e : event X) k :
    (forall x, yields Q (k x)) -> yields Q (Vis e k).

(** The seconds slept in a run, and the programs it ran. *)
Definition sleeps (tr : list effect) : list Z :=
  omap (fun eff => match eff with slept n => Some n | _ => None end) tr.

Definition runs (tr : list effect) : list (list str) :=
  omap (fun eff => match eff with ran argv _ _ => Some argv | _ => None end) tr.

(** Two notifiers with the same settings: all but the states of the panes. *)
Definition same_settings (a b : Notifier) : Prop :=
  webhook_url a = webhook_url b
  /\ interval_seconds a = interval_seconds b
  /\ scan_lines a = scan_lines b
  /\ match_command a = match_command b
  /\ match_text a = match_text b
  /\ verbose a = verbose b
  /\ dry_run a = dry_run b.

(** Every pane the notifier holds a state of has been observed. *)
Definition all_seen (self : Notifier) : Prop :=
  map_Forall (fun _ state => is_Some (last_seen_active state))
    (pane_id_to_state self).

(** What running the loop keeps: the settings, the panes that have a state,
    and that these have been observed. *)
Definition kept (before after : Notifier) : Prop :=
  same_settings before after
  /\ (forall id, is_Some (pane_id_to_state before !! id) ->
                 is_Some (pane_id_to_state after !! id))
  /\ (all_seen before -> all_seen after).

(** The command [_list_tmux_panes] runs. *)
Definition list_argv : list str :=
  [TMUX; lit "list-panes"; lit "-a"; lit "-F"; list_panes_format].

(** How often a pane goes from active to idle in a row of observations,
    given what was known of it before. *)
Fixpoint falling_edges (known : option bool) (obs : list bool) : nat :=
  match obs with
  | [] => 0
  | looks_active :: obs' =>
      (if observe known looks_active is BecameIdle then 1 else 0)
      + falling_edges (Some looks_active) obs'
  end.

(** The number of tabs in a line. *)
Definition tabs (line : str) : nat :=
  length (filter (fun c => c = TAB) line).

(** A world where no tmux server runs: every command ends with status 1. *)
Definition no_server_world : env :=
  fun X past e =>
    match e in event X return X with
    | time_time => 1762243200.5%float
    | time_strftime _ => lit "08:00:00"
    | print _ => tt
    | time_sleep _ => tt
    | subprocess_run _ _ =>
        inr {| returncode := 1; stdout := [];
               stderr := lit "no server running on /tmp/tmux-1000/default"
                         ++ [LF] |}
    | urlopen _ _ => inr 204%Z
    | call_log _ => tt
    | call_send_idle_notification _ => tt
    end.

(** The command [_capture_pane_text] runs. *)
Definition capture_argv (pane_id : str) (lines : Z) : list str :=
  [TMUX; lit "capture-pane"; lit "-p"; lit "-J"; lit "-t"; pane_id;
   lit "-S"; lit "-" ++ of_Z lines].

(** The lines a run printed, and the times of day it was given. *)
Definition printed_lines (tr : list effect) : list str :=
  omap (fun eff => match eff with printed line => Some line | _ => None end) tr.

Definition clock_texts (tr : list effect) : list str :=
  omap (fun eff => match eff with formatted_time _ ts => Some ts | _ => None end)
    tr.

(** A message as [log] prints it at the time of day [ts]. *)
Definition stamped (ts message : str) : str :=
  lit "[" ++ ts ++ lit "] " ++ message.

(** The time of day is asked for as hours, minutes and seconds. *)
Definition clock_format_ok (eff : effect) : Prop :=
  match eff with
  | formatted_time format _ => format = lit "%H:%M:%S"
  | _ => True
  end.

(** What a verbose run prints: a line for each call of [log], in order, the
    message after the time of day asked for at that call. *)
Definition log_printed_in (tr : list effect) : Prop :=
  length (clock_texts tr) = length (log_calls tr)
  /\ printed_lines tr = zip_with stamped (clock_texts tr) (log_calls tr)
  /\ Forall clock_format_ok tr.

(** An event other than those of [log] itself, and one that is no request
    either. *)
Definition plain_event X (e : event X) : Prop :=
  match e with print _ | time_strftime _ => False | _ => True end.

(** * Properties *)

(** ** The matcher finds what the patterns mean *)

Section Sem.
Context `{UnicodeDB}.

Lemma last_char_nil prev : last_char prev [] = prev.
Proof. reflexivity. Qed.

Lemma last_char_app prev w1 w2 :
  last_char prev (w1 ++ w2) = last_char (last_char prev w1) w2.
Proof.
  unfold last_char. destruct w2 as [|c w2] using rev_ind.
  - rewrite app_nil_r. simpl. by destruct (last w1).
  - rewrite app_assoc, !last_snoc. done.
Qed.

Lemma last_char_cons prev c w :
  last_char prev (c :: w) = last_char (Some c) w.
Proof. apply (last_char_app prev [c] w). Qed.

Lemma last_char_snoc prev w c : last_char prev (w ++ [c]) = Some c.
Proof. unfold last_char. by rewrite last_snoc. Qed.

Lemma ends_plus_spec cc s m :
  m ∈ ends_plus cc s <->
  exists w, s = w ++ m.2 /\ w <> [] /\ Forall (fun c => accepts cc c = true) w
            /\ m.1 = last w.
Proof.
  revert m. induction s as [|c s IH]; intros [pv rest]; simpl.
  - split; [by intros ?%elem_of_nil|].
    intros (w & Hs & Hw & _). symmetry in Hs.
    apply app_eq_nil in Hs as [-> _]. done.
  - destruct (accepts cc c) eqn:Hc.
    + rewrite elem_of_app, IH, list_elem_of_singleton. simpl. split.
      * intros [(w & -> & Hw & Hall & ->)|[= -> ->]].
        -- exists (c :: w). repeat split; [done|by constructor|].
           destruct w; [done|]. done.
        -- exists [c]. repeat split; [done|by repeat constructor].
      * intros (w & Hs & Hw & Hall & ->).
        destruct w as [|c' w]; [done|]. simplify_eq/=.
        destruct w as [|c'' w].
        -- right. done.
        -- left. exists (c'' :: w). apply Forall_cons in Hall as [_ Hall].
           repeat split; done.
    + split; [by intros ?%elem_of_nil|].
      intros (w & Hs & Hw & Hall & _).
      destruct w as [|c' w]; [done|]. simplify_eq/=.
      apply Forall_cons in Hall as [Hc' _]. congruence.
Qed.

Lemma ends_spec r prev s m :
  m ∈ ends r prev s <->
  exists w, s = w ++ m.2 /\ den r prev w m.2 /\ m.1 = last_char prev w.
Proof.
  revert prev s m. induction r as [|cc|cc| |r1 IH1 r2 IH2|r1 IH1 r2 IH2];
    intros prev s [pv rest]; simpl.
  - rewrite list_elem_of_singleton. split.
    + intros [= -> ->]. by exists [].
    + intros (w & -> & -> & ->). done.
  - destruct s as [|c s].
    + split; [by intros ?%elem_of_nil|].
      intros (w & Hs & (c & -> & _) & _). done.
    + destruct (accepts cc c) eqn:Hc.
      * rewrite list_elem_of_singleton. split.
        -- intros [= -> ->]. exists [c]. eauto.
        -- intros (w & Hs & (c' & -> & _) & ->). by simplify_eq/=.
      * split; [by intros ?%elem_of_nil|].
        intros (w & Hs & (c' & -> & Hc') & _). simplify_eq/=. congruence.
  - rewrite ends_plus_spec. simpl. split.
    + intros (w & -> & Hw & Hall & ->). exists w. repeat split; try done.
      unfold last_char. destruct (last w) eqn:Hl; [done|].
      by apply last_None in Hl.
    + intros (w & -> & [Hw Hall] & ->). exists w. repeat split; try done.
      unfold last_char. destruct (last w) eqn:Hl; [done|].
      by apply last_None in Hl.
  - destruct (at_boundary prev s) eqn:Hb.
    + rewrite list_elem_of_singleton. split.
      * intros [= -> ->]. by exists [].
      * intros (w & -> & [-> _] & ->). done.
    + split; [by intros ?%elem_of_nil|].
      intros (w & -> & [-> Hb'] & _). simpl in *. congruence.
  - rewrite list_elem_of_bind. split.
    + intros ([pv1 s1] & Hm2 & Hm1). simpl in Hm2.
      apply IH1 in Hm1 as (w1 & -> & Hd1 & Hp1).
      apply IH2 in Hm2 as (w2 & Hs & Hd2 & Hp2). simpl in *. subst.
      exists (w1 ++ w2). rewrite <- app_assoc, last_char_app. eauto 10.
    + intros (w & -> & (w1 & w2 & -> & Hd1 & Hd2) & ->).
      exists (last_char prev w1, w2 ++ rest). split.
      * apply IH2. exists w2. simpl. by rewrite last_char_app.
      * apply IH1. exists w1. simpl. by rewrite <- app_assoc.
  - rewrite elem_of_app, IH1, IH2. simpl. split.
    + intros [(w & ? & ? & ?)|(w & ? & ? & ?)]; exists w; tauto.
    + intros (w & ? & [?|?] & ?); [left|right]; exists w; tauto.
Qed.

Lemma search_from_spec r pos prev s :
  is_Some (search_from r pos prev s) <->
  exists pre w post, s = pre ++ w ++ post /\ den r (last_char prev pre) w post.
Proof.
  revert pos prev. induction s as [|c s IH]; intros pos prev; simpl.
  - destruct (ends r prev []) as [|m ms] eqn:He.
    + split; [by intros [? ?]|].
      intros (pre & w & post & Hs & Hd). symmetry in Hs.
      apply app_eq_nil in Hs as [-> [-> ->]%app_eq_nil].
      assert ((prev, []) ∈ ends r prev []) as Hin
        by (apply ends_spec; exists []; done).
      rewrite He in Hin. by apply elem_of_nil in Hin.
    + split; [|by eauto].
      intros _. assert (m ∈ ends r prev []) as Hin by (rewrite He; left).
      apply ends_spec in Hin as (w & Hs & Hd & _).
      exists [], w, m.2. done.
  - destruct (ends r prev (c :: s)) as [|m ms] eqn:He.
    + rewrite IH. split.
      * intros (pre & w & post & -> & Hd). exists (c :: pre), w, post.
        by rewrite last_char_cons.
      * intros (pre & w & post & Hs & Hd). destruct pre as [|c' pre].
        -- assert ((last_char prev w, post) ∈ ends r prev (c :: s)) as Hin
             by (apply ends_spec; exists w; done).
           rewrite He in Hin. by apply elem_of_nil in Hin.
        -- simplify_eq/=. rewrite last_char_cons in Hd. eauto.
    + split; [|by eauto].
      intros _. assert (m ∈ ends r prev (c :: s)) as Hin by (rewrite He; left).
      apply ends_spec in Hin as (w & Hs & Hd & _).
      exists [], w, m.2. done.
Qed.

Lemma search_spec r s :
  is_Some (search r s) <->
  exists pre w post, s = pre ++ w ++ post /\ den r (last pre) w post.
Proof.
  unfold search. rewrite search_from_spec.
  assert (forall pre, last_char None pre = last pre) as E
    by (intros pre; unfold last_char; by destruct (last pre)).
  by setoid_rewrite E.
Qed.

End Sem.

(** ** [TOKEN_REGEX] and the token indicators *)

Section Indicator.
Context `{UnicodeDB}.

Lemma den_word pat prev w rest : den (word pat) prev w rest <-> spells pat w.
Proof.
  unfold spells. revert prev w.
  induction pat as [|c pat IH]; intros prev w; simpl.
  - split; [intros ->; constructor | by intros ->%Forall2_nil_inv_l].
  - split.
    + intros (w1 & w2 & -> & (c' & -> & Hc) & Hd). apply IH in Hd.
      by constructor.
    + intros (c' & w' & Hc & Hw & ->)%Forall2_cons_inv_l.
      exists [c'], w'. repeat split; [by eauto|]. by apply IH.
Qed.

Lemma ignorecase_literal_inv c ch :
  ignorecase_literal c ch = true ->
  ch = c \/ (ascii_islower c = true /\ ch = c - 32)
  \/ (c = 105 /\ (ch = 0x130 \/ ch = 0x131))
  \/ (c = 115 /\ ch = 0x17F) \/ (c = 107 /\ ch = 0x212A).
Proof.
  unfold ignorecase_literal.
  rewrite !orb_true_iff, !andb_true_iff, !orb_true_iff, !N.eqb_eq. tauto.
Qed.

Lemma isword_ascii c : c < 128 -> isword c = ascii_isalnum c || (c =? 95).
Proof. intros Hc. unfold isword. by rewrite isalnum_ascii. Qed.

Lemma isword_space c : isspace c = true -> isword c = false.
Proof.
  intros Hc. unfold isword. rewrite (isspace_not_alnum c Hc). simpl.
  apply N.eqb_neq. intros ->. done.
Qed.

Lemma isword_LF : isword LF = false.
Proof. by apply isword_space. Qed.

(** The characters a lower-case letter of the pattern accepts. *)
Lemma ignorecase_letter c ch :
  ascii_islower c = true -> c <> 105 -> c <> 115 -> c <> 107 ->
  ignorecase_literal c ch = true -> ch = c \/ ch = c - 32.
Proof.
  intros _ Hi Hs Hk Hc%ignorecase_literal_inv.
  destruct Hc as [?|[[_ ?]|[[? _]|[[? _]|[? _]]]]]; auto; done.
Qed.

Lemma ignorecase_k ch :
  ignorecase_literal 107 ch = true -> ch = 107 \/ ch = 75 \/ ch = 0x212A.
Proof.
  intros Hc%ignorecase_literal_inv.
  destruct Hc as [?|[[_ ?]|[[? _]|[[? _]|[_ ?]]]]]; auto; done.
Qed.

Lemma ignorecase_s ch :
  ignorecase_literal 115 ch = true -> ch = 115 \/ ch = 83 \/ ch = 0x17F.
Proof.
  intros Hc%ignorecase_literal_inv.
  destruct Hc as [?|[[_ ?]|[[? _]|[[_ ?]|[? _]]]]]; auto; done.
Qed.

(** The six characters of a spelling of "tokens". *)
Lemma spells_tokens_inv w :
  spells tokens w ->
  exists t o k e n s, w = [t; o; k; e; n; s]
    /\ (t = 116 \/ t = 84) /\ (o = 111 \/ o = 79)
    /\ (k = 107 \/ k = 75 \/ k = 0x212A) /\ (e = 101 \/ e = 69)
    /\ (n = 110 \/ n = 78) /\ (s = 115 \/ s = 83 \/ s = 0x17F).
Proof.
  unfold spells, tokens. intros Hw.
  apply Forall2_cons_inv_l in Hw as (t & w1 & Ht & Hw & ->).
  apply Forall2_cons_inv_l in Hw as (o & w2 & Ho & Hw & ->).
  apply Forall2_cons_inv_l in Hw as (k & w3 & Hk & Hw & ->).
  apply Forall2_cons_inv_l in Hw as (e & w4 & He & Hw & ->).
  apply Forall2_cons_inv_l in Hw as (n & w5 & Hn & Hw & ->).
  apply Forall2_cons_inv_l in Hw as (s & w6 & Hs & Hw & ->).
  apply Forall2_nil_inv_l in Hw as ->.
  exists t, o, k, e, n, s. split; [reflexivity|].
  apply ignorecase_letter in Ht; [|done..].
  apply ignorecase_letter in Ho; [|done..].
  apply ignorecase_k in Hk.
  apply ignorecase_letter in He; [|done..].
  apply ignorecase_letter in Hn; [|done..].
  apply ignorecase_s in Hs.
  done.
Qed.

Lemma spells_tokens_head w :
  spells tokens w -> exists c w', w = c :: w' /\ isword c = true.
Proof.
  intros (t & o & k & e & n & s & -> & [-> | ->] & _)%spells_tokens_inv;
    eexists _, _; (split; [reflexivity|]); by rewrite isword_ascii.
Qed.

Lemma spells_tokens_last w :
  spells tokens w -> exists w' c, w = w' ++ [c] /\ isword c = true.
Proof.
  intros (t & o & k & e & n & s & -> & _ & _ & _ & _ & _ & Hs)%spells_tokens_inv.
  exists [t; o; k; e; n], s. split; [done|].
  destruct Hs as [-> | [-> | ->]]; try by rewrite isword_ascii.
  unfold isword. by rewrite isalnum_long_s.
Qed.

Lemma spells_tokens_no_LF w : spells tokens w -> LF ∉ w.
Proof.
  intros (t & o & k & e & n & s & -> & Ht & Ho & Hk & He & Hn & Hs)%spells_tokens_inv.
  rewrite !not_elem_of_cons. unfold LF.
  repeat split; try (by intros ?%elem_of_nil); intros <-.
  - by destruct Ht.
  - by destruct Ho.
  - by destruct Hk as [|[|]].
  - by destruct He.
  - by destruct Hn.
  - by destruct Hs as [|[|]].
Qed.

(** A counted indicator contains a standalone one: the white space before
    the word is a word boundary. *)
Lemma counted_standalone l : counted_tokens l -> standalone_tokens l.
Proof.
  intros (pre & ds & ws & w & post & -> & _ & _ & Hws & Hsp & Hw & _ & Hpost).
  exists (pre ++ ds ++ ws), w, post. rewrite <- !app_assoc.
  split; [done|]. split; [done|]. split; [|done].
  destruct (last ws) as [c|] eqn:E; [|by apply last_None in E].
  apply last_Some in E as [ws' ->].
  rewrite !app_assoc, last_snoc. simpl.
  apply Forall_app in Hsp as [_ [Hc _]%Forall_cons].
  by apply isword_space.
Qed.

Lemma token_indicator_standalone l : token_indicator l <-> standalone_tokens l.
Proof.
  split; [intros [?|?%counted_standalone]; done | by left].
Qed.

(** What [TOKEN_REGEX] matches: digits and white space, if any, and then
    the word, between two word boundaries. *)
Lemma den_TOKEN_REGEX prev w post :
  den TOKEN_REGEX prev w post <->
  at_boundary prev (w ++ post) = true
  /\ at_boundary (last_char prev w) post = true
  /\ (spells tokens w
      \/ exists ds ws w', w = ds ++ ws ++ w'
           /\ ds <> [] /\ Forall (fun c => isdecimal c = true) ds
           /\ ws <> [] /\ Forall (fun c => isspace c = true) ws
           /\ spells tokens w').
Proof.
  unfold TOKEN_REGEX. generalize (den_word tokens).
  generalize (word tokens). intros r Hr. cbn [den]. split.
  - intros (w1 & w2 & -> & [-> Hb1] & w3 & w4 & -> & Ha & -> & Hb2).
    simpl in *. rewrite app_nil_r in *. repeat split; [done..|].
    destruct Ha as [(ds & w5 & -> & [Hds Hd] & ws & w' & -> & [Hws Hs] & Hw)|Hw].
    + right. exists ds, ws, w'. apply Hr in Hw. done.
    + left. by apply Hr in Hw.
  - intros (Hb1 & Hb2 & Hw). exists [], w. simpl. repeat split; [done|].
    exists w, []. rewrite !app_nil_r. simpl. repeat split; [|done].
    destruct Hw as [Hw|(ds & ws & w' & -> & Hds & Hd & Hws & Hs & Hw)].
    + right. by apply Hr.
    + left. exists ds, (ws ++ w'). repeat split; [done..|].
      exists ws, w'. repeat split; [done..|]. by apply Hr.
Qed.

(** The boundaries around a spelling of the word: its first and last
    characters are word characters, so the neighbours must not be. *)
Lemma boundaries_spelled prev w post :
  spells tokens w ->
  (at_boundary prev (w ++ post) = true
   /\ at_boundary (last_char prev w) post = true)
  <-> (isword_at prev = false /\ isword_at (head post) = false).
Proof.
  intros Hw.
  destruct (spells_tokens_head w Hw) as (c & w' & E & Hc).
  destruct (spells_tokens_last w Hw) as (w'' & c' & E' & Hc').
  unfold at_boundary. rewrite E' at 2. rewrite last_char_snoc. rewrite E.
  simpl. rewrite Hc, Hc'. destruct (isword_at prev), (isword_at (head post));
    simpl; intuition congruence.
Qed.

(** [TOKEN_REGEX] finds something exactly in the texts with a standalone
    whole-word "tokens": its first alternative is a special case of the
    second as far as the existence of a match goes. *)
Lemma search_TOKEN_REGEX s :
  is_Some (search TOKEN_REGEX s) <-> standalone_tokens s.
Proof.
  rewrite search_spec. split.
  - intros (pre & w & post & -> & Hd). apply token_indicator_standalone.
    apply den_TOKEN_REGEX in Hd as (Hb1 & Hb2 & [Hw|Hc]).
    + left. exists pre, w, post. split; [done|]. split; [done|].
      by apply (boundaries_spelled (last pre) w post).
    + right. destruct Hc as (ds & ws & w' & -> & Hds & Hd & Hws & Hs & Hw).
      exists pre, ds, ws, w', post. rewrite <- !app_assoc.
      repeat split; try done.
      * destruct ds as [|d ds]; [done|]. apply Forall_cons in Hd as [Hd _].
        assert (isword d = true) as Hwd
          by (unfold isword; by rewrite (isdecimal_isalnum d Hd)).
        unfold at_boundary in Hb1. simpl in Hb1. rewrite Hwd in Hb1.
        by destruct (isword_at (last pre)).
      * destruct (spells_tokens_last w' Hw) as (w'' & c' & -> & Hc').
        rewrite !app_assoc, last_char_snoc in Hb2.
        unfold at_boundary in Hb2. simpl in Hb2. rewrite Hc' in Hb2.
        by destruct (isword_at (head post)).
  - intros (pre & w & post & -> & Hw & Hb). exists pre, w, post.
    split; [done|]. apply den_TOKEN_REGEX.
    apply (boundaries_spelled (last pre) w post) in Hb; [|done]. tauto.
Qed.

End Indicator.

(** ** Lines: the classifier sees its tail line by line *)

Section Lines.
Context `{UnicodeDB}.

Lemma isword_at_last_LF l k :
  isword_at (last (l ++ LF :: k)) = isword_at (last k).
Proof.
  rewrite last_app. destruct k as [|c k].
  - simpl. apply isword_LF.
  - rewrite last_cons. destruct (last (c :: k)) eqn:E; [done|].
    by apply last_None in E.
Qed.

Lemma isword_at_head_LF k R :
  isword_at (head (k ++ LF :: R)) = isword_at (head k).
Proof. destruct k; [apply isword_LF | done]. Qed.

(** A spelling of the word never contains the line feed that joins two
    lines, so it lies in one of them, and the line feed is as good a
    neighbour as the end of the line. *)
Lemma standalone_app_LF l R :
  standalone_tokens (l ++ LF :: R) <-> standalone_tokens l \/ standalone_tokens R.
Proof.
  split.
  - intros (pre & w & post & E & Hw & Hpre & Hpost).
    pose proof (spells_tokens_no_LF w Hw) as Hno.
    apply app_eq_inv in E as [(k & -> & E)|(k & -> & E)].
    + apply app_eq_inv in E as [(k' & -> & E)|(k' & -> & ->)].
      * destruct k' as [|c k'].
        -- simpl in E. subst post. rewrite app_nil_r in *.
           left. exists pre, k, []. by rewrite app_nil_r.
        -- simplify_eq/=. exfalso. apply Hno. set_solver.
      * left. exists pre, w, k'. rewrite isword_at_head_LF in Hpost. done.
    + destruct k as [|c k].
      * simpl in E. destruct (spells_tokens_head w Hw) as (c & w' & -> & _).
        simplify_eq/=. exfalso. apply Hno. set_solver.
      * simplify_eq/=. right. exists k, w, post.
        rewrite isword_at_last_LF in Hpre. done.
  - intros [(pre & w & post & -> & Hw & Hpre & Hpost)
           |(pre & w & post & -> & Hw & Hpre & Hpost)].
    + exists pre, w, (post ++ LF :: R). rewrite <- !app_assoc.
      by rewrite isword_at_head_LF.
    + exists (l ++ LF :: pre), w, post. rewrite <- !app_assoc. simpl.
      by rewrite isword_at_last_LF.
Qed.

Lemma standalone_nil : ~ standalone_tokens [].
Proof.
  intros (pre & w & post & E & Hw & _). symmetry in E.
  apply app_eq_nil in E as [_ [-> _]%app_eq_nil].
  by destruct (spells_tokens_head [] Hw) as (? & ? & ? & _).
Qed.

Lemma standalone_join ls :
  standalone_tokens (join [LF] ls) <-> exists l, l ∈ ls /\ standalone_tokens l.
Proof.
  induction ls as [|l ls IH].
  - simpl. split; [by intros ?%standalone_nil|].
    by intros (l & ?%elem_of_nil & _).
  - destruct ls as [|l' ls].
    + simpl. split; [intros; exists l; split; [left|done]|].
      by intros (l0 & ->%list_elem_of_singleton & ?).
    + change (join [LF] (l :: l' :: ls)) with (l ++ LF :: join [LF] (l' :: ls)).
      rewrite standalone_app_LF, IH. split.
      * intros [?|(l0 & ? & ?)]; [exists l; split; [left|done]|].
        exists l0. split; [by right|done].
      * intros (l0 & [->|?]%elem_of_cons & ?); [by left|right; eauto].
Qed.

(** *** Text above the tail *)

Lemma nonblank_cons l ls : nonblank (l :: ls) = nonblank [l] ++ nonblank ls.
Proof. unfold nonblank. rewrite fmap_cons. apply (filter_app _ [strip l]). Qed.

Lemma nonblank_nil_cons ls : nonblank ([] :: ls) = nonblank ls.
Proof. by rewrite nonblank_cons. Qed.

Lemma splitlines_from_LF line b :
  splitlines_from line (LF :: b) = line :: splitlines b.
Proof. by destruct b. Qed.

Lemma nonblank_splitlines_from_nil line :
  nonblank (splitlines_from line []) = nonblank [line].
Proof. by destruct line. Qed.

(** Cutting a text at a line feed cuts its list of non-empty stripped lines
    in two. *)
Lemma nonblank_splitlines_app_LF n a line b :
  (length a <= n)%nat ->
  nonblank (splitlines_from line (a ++ LF :: b))
  = nonblank (splitlines_from line a) ++ nonblank (splitlines b).
Proof.
  revert a line. induction n as [|n IH]; intros a line Hn.
  - destruct a; [|simpl in Hn; lia]. change ([] ++ LF :: b) with (LF :: b).
    by rewrite splitlines_from_LF, nonblank_cons, nonblank_splitlines_from_nil.
  - destruct a as [|c a].
    { change ([] ++ LF :: b) with (LF :: b).
      by rewrite splitlines_from_LF, nonblank_cons,
        nonblank_splitlines_from_nil. }
    simpl in Hn. simpl. destruct (islinebreak c) eqn:Hc.
    + match goal with
      | |- nonblank (line :: ?X) = nonblank (line :: ?Y) ++ _ =>
          rewrite (nonblank_cons line X), (nonblank_cons line Y), <- app_assoc
      end.
      f_equal.
      destruct a as [|d a].
      * change ([] ++ LF :: b) with (LF :: b). cbv beta iota.
        change (LF =? LF) with true. rewrite andb_true_r.
        destruct (c =? CR); [done|].
        by rewrite splitlines_from_LF, nonblank_nil_cons.
      * simpl in Hn. simpl. destruct ((c =? CR) && (d =? LF)).
        -- apply IH. lia.
        -- apply (IH (d :: a)). simpl. lia.
    + apply IH. lia.
Qed.

Lemma stripped_lines_app_LF above text :
  stripped_lines (above ++ LF :: text)
  = stripped_lines above ++ stripped_lines text.
Proof. by apply (nonblank_splitlines_app_LF (length above)). Qed.

Lemma last_n_app {A} n (l k : list A) :
  (n <= length k)%nat -> last_n n (l ++ k) = last_n n k.
Proof.
  intros Hn. unfold last_n. rewrite length_app, drop_app, drop_ge by lia.
  simpl. f_equal. lia.
Qed.

(** With 20 non-empty lines below it, what stands above a line feed is out
    of the classifier's sight. *)
Lemma tail_lines_above above text :
  (20 <= length (stripped_lines text))%nat ->
  tail_lines (above ++ LF :: text) = tail_lines text.
Proof.
  intros Hn. unfold tail_lines. rewrite stripped_lines_app_LF.
  by apply last_n_app.
Qed.

(** The classifier answers "active" exactly when one of the last 20
    non-empty stripped lines carries a token indicator. *)
Lemma detect_active_iff text :
  _detect_active text = true <->
  exists l, l ∈ tail_lines text /\ token_indicator l.
Proof.
  unfold _detect_active, tail_lines.
  rewrite bool_decide_eq_true, search_TOKEN_REGEX, standalone_join.
  by setoid_rewrite token_indicator_standalone.
Qed.

End Lines.

(** ** The basic tables are a character database *)

Lemma basic_isdecimal_ascii c : c < 128 -> basic_isdecimal c = ascii_isdigit c.
Proof. intros Hc%N.ltb_lt. unfold basic_isdecimal. by rewrite Hc. Qed.

Lemma basic_isalnum_ascii c : c < 128 -> basic_isalnum c = ascii_isalnum c.
Proof.
  intros Hc. unfold basic_isalnum.
  rewrite (proj2 (N.ltb_lt _ _) Hc). simpl.
  replace (c =? 0x17F) with false; [apply orb_false_r|].
  symmetry. apply N.eqb_neq. lia.
Qed.

Lemma basic_isdecimal_isalnum c :
  basic_isdecimal c = true -> basic_isalnum c = true.
Proof.
  unfold basic_isdecimal, basic_isalnum, ascii_isalnum.
  intros [-> ->]%andb_true_iff. simpl. by rewrite orb_true_r.
Qed.

Lemma basic_isspace_not_alnum c :
  isspace c = true -> basic_isalnum c = false.
Proof.
  unfold isspace, basic_isalnum, ascii_isalnum, ascii_isalpha, ascii_isdigit.
  intros Hs. apply not_true_iff_false. revert Hs.
  rewrite !orb_true_iff, !andb_true_iff, !orb_true_iff, !andb_true_iff,
    !N.leb_le, !N.eqb_eq, N.ltb_lt.
  lia.
Qed.

Definition basic_db : UnicodeDB := {|
  isdecimal := basic_isdecimal;
  isalnum := basic_isalnum;
  isdecimal_ascii := basic_isdecimal_ascii;
  isalnum_ascii := basic_isalnum_ascii;
  isdecimal_isalnum := basic_isdecimal_isalnum;
  isspace_not_alnum := basic_isspace_not_alnum;
  isalnum_long_s := eq_refl
|}.

(** ** The classifier: what it sees and what it answers *)

Section ClassifierProperties.
Context `{UnicodeDB}.

Lemma spells_refl_tokens : spells tokens tokens.
Proof. unfold spells, tokens. repeat constructor. Qed.

(** C2. The classifier answers by the last 20 non-empty stripped lines alone:
    it returns false when none of them carries a whole-word "tokens"
    (standalone or after digits and white space), true as soon as one of them
    does, and false again whatever is written above a line feed that has 20
    indicator-free non-empty lines below it. *)
Theorem detect_active_tail (text : str) :
  ((forall l, l ∈ tail_lines text -> ~ token_indicator l) ->
   _detect_active text = false)
  /\ ((exists l, l ∈ tail_lines text /\ token_indicator l) ->
      _detect_active text = true)
  /\ (forall above,
        (20 <= length (stripped_lines text))%nat ->
        (forall l, l ∈ tail_lines text -> ~ token_indicator l) ->
        _detect_active (above ++ LF :: text) = false).
Proof.
  assert (forall t, (forall l, l ∈ tail_lines t -> ~ token_indicator l) ->
                    _detect_active t = false) as Hnone.
  { intros t Hno. apply not_true_iff_false.
    intros (l & Hl & Hi)%detect_active_iff. by apply (Hno l). }
  split; [apply Hnone|]. split; [apply detect_active_iff|].
  intros above Hlen Hno. apply Hnone. by rewrite tail_lines_above.
Qed.

Lemma join_cons_cons sep (x y : str) ls :
  join sep (x :: y :: ls) = x ++ sep ++ join sep (y :: ls).
Proof. reflexivity. Qed.

(** Two consecutive lines inside the joined tail: a line feed between them,
    and around them nothing or a line feed. *)
Lemma join_consecutive before l1 l2 after :
  exists P Q,
    join [LF] (before ++ l1 :: l2 :: after) = P ++ l1 ++ LF :: l2 ++ Q
    /\ (forall a, isword_at (last (P ++ a)) = isword_at (last a))
    /\ (forall b, isword_at (head (b ++ Q)) = isword_at (head b)).
Proof.
  induction before as [|x before (P & Q & E & HP & HQ)].
  - exists [], (match after with [] => [] | _ => LF :: join [LF] after end).
    split; [|split; [done|]].
    + simpl app. rewrite join_cons_cons. simpl. do 2 f_equal.
      destruct after; [by rewrite app_nil_r|done].
    + intros b. destruct after; [by rewrite app_nil_r|].
      apply isword_at_head_LF.
  - exists (x ++ LF :: P), Q. split; [|split; [|done]].
    + change ((x :: before) ++ l1 :: l2 :: after)
        with (x :: (before ++ l1 :: l2 :: after)).
      destruct (before ++ l1 :: l2 :: after) as [|y ls] eqn:E'.
      { by destruct before. }
      rewrite join_cons_cons, E. by rewrite <- !app_assoc.
    + intros a. rewrite <- app_assoc. simpl.
      rewrite isword_at_last_LF. apply HP.
Qed.

Lemma standalone_length l : standalone_tokens l -> (6 <= length l)%nat.
Proof.
  intros (pre & w & post & -> & Hw & _).
  apply Forall2_length in Hw. rewrite !length_app, <- Hw. simpl. lia.
Qed.

Lemma counted_length l : counted_tokens l -> (8 <= length l)%nat.
Proof.
  intros (pre & ds & ws & w & post & -> & Hds & _ & Hws & _ & Hw & _).
  apply Forall2_length in Hw. rewrite !length_app, <- Hw.
  destruct ds; [done|]. destruct ws; [done|]. simpl. lia.
Qed.

(** C9. A line that ends in digits, directly followed in the tail by a line
    that begins with the word "tokens", makes the text active, and the
    pattern's first alternative matches there across the line feed that
    joins the two lines (its white space accepts it), although neither line
    holds a "<digits> tokens" of its own; "123" over "tokens" is such a
    text. *)
Theorem detect_active_across_lines :
  (forall text before l1 l2 after a ds w b,
     tail_lines text = before ++ l1 :: l2 :: after ->
     l1 = a ++ ds -> ds <> [] -> Forall (fun c => isdecimal c = true) ds ->
     l2 = w ++ b -> spells tokens w -> isword_at (head b) = false ->
     _detect_active text = true
     /\ (isword_at (last a) = false ->
         exists pre post,
           join [LF] (tail_lines text) = pre ++ (ds ++ LF :: w) ++ post
           /\ den TOKEN_REGEX (last pre) (ds ++ LF :: w) post))
  /\ (let text := lit "123" ++ LF :: lit "tokens" in
      _detect_active text = true
      /\ forall l, l ∈ splitlines text -> ~ counted_tokens l).
Proof.
  split.
  - intros text before l1 l2 after a ds w b Htail -> Hds Hd -> Hw Hb. split.
    + apply detect_active_iff. exists (w ++ b). split.
      * rewrite Htail. set_solver.
      * left. exists [], w, b. done.
    + intros Ha. rewrite Htail.
      destruct (join_consecutive before (a ++ ds) (w ++ b) after)
        as (P & Q & -> & HP & HQ).
      exists (P ++ a), (b ++ Q). split.
      { rewrite <- !app_assoc. simpl. by rewrite <- ?app_assoc. }
      apply den_TOKEN_REGEX. split; [|split].
      * destruct ds as [|d ds]; [done|]. apply Forall_cons in Hd as [Hd _].
        unfold at_boundary. simpl. rewrite HP, Ha.
        unfold isword. by rewrite (isdecimal_isalnum d Hd).
      * destruct (spells_tokens_last w Hw) as (w' & c & -> & Hc).
        replace (ds ++ LF :: w' ++ [c]) with ((ds ++ LF :: w') ++ [c])
          by (by rewrite <- app_assoc).
        rewrite last_char_snoc. unfold at_boundary. simpl.
        by rewrite HQ, Hc, Hb.
      * right. exists ds, [LF], w. repeat split; try done.
        by repeat constructor.
  - split.
    + apply detect_active_iff. exists tokens. split.
      * vm_compute. set_solver.
      * left. exists [], tokens, []. split; [done|].
        split; [apply spells_refl_tokens|done].
    + intros l Hl Hc%counted_length. vm_compute in Hl.
      apply elem_of_cons in Hl as [->|Hl]; [simpl in Hc; lia|].
      apply list_elem_of_singleton in Hl as ->. simpl in Hc. lia.
Qed.

End ClassifierProperties.

(** ** The transition tracker *)

Section Tracker.
Variable world : env.

Lemma exec_trigger {X A} past (e : event X) (k : X -> Prog A) :
  exec world past (trigger e ≫= k)
  = let x := world _ past e in
    let '(a, tr) := exec world (past ++ [effect_of e x]) (k x) in
    (a, effect_of e x :: tr).
Proof. reflexivity. Qed.

Lemma state_of_set_state self id state :
  state_of (set_state self id state) id = state.
Proof. unfold state_of, set_state. simpl. by rewrite lookup_insert_eq. Qed.

(** One step of the tracker, case by case. *)
Lemma maybe_notify_transition_exec past self pane looks_active buffer_text :
  exec world past (_maybe_notify_transition self pane looks_active buffer_text)
  = let state := state_of self (pane_id pane) in
    let write t :=
      set_state self (pane_id pane)
        {| last_seen_active := Some looks_active; last_transition_ts := t |} in
    match observe (last_seen_active state) looks_active with
    | Initialized =>
        let t := world _ past time_time in
        (write t,
         [read_clock t;
          logged (lit "Initialized state for " ++ human_ref pane
                  ++ lit ": active=" ++ of_bool looks_active)])
    | BecameIdle =>
        let t := world _ (past ++ [notified pane]) time_time in
        (write t, [notified pane; read_clock t])
    | BecameActive =>
        let m := human_ref pane ++ lit " became active again" in
        let t := world _ (past ++ [logged m]) time_time in
        (write t, [logged m; read_clock t])
    | NoChange => (write (last_transition_ts state), [])
    end.
Proof.
  unfold _maybe_notify_transition. fold (state_of self (pane_id pane)).
  destruct (last_seen_active (state_of self (pane_id pane))) as [[]|];
    destruct looks_active; reflexivity.
Qed.

(** What one step leaves behind, in terms of the state machine. *)
Lemma step_summary past self pane looks_active buffer_text :
  let state := state_of self (pane_id pane) in
  let ev := observe (last_seen_active state) looks_active in
  let '(self', step) :=
    exec world past
      (_maybe_notify_transition self pane looks_active buffer_text) in
  emitted step = Some ev
  /\ notifications step = (if ev is BecameIdle then [pane] else [])
  /\ state_of self' (pane_id pane)
     = {| last_seen_active := Some looks_active;
          last_transition_ts :=
            default (last_transition_ts state) (last (clock_readings step)) |}
  /\ length (clock_readings step) = (if ev is NoChange then 0 else 1)%nat
  /\ Forall (fun t => exists past', t = world _ past' time_time)
       (clock_readings step).
Proof.
  rewrite maybe_notify_transition_exec. cbv zeta.
  destruct (observe _ _); rewrite state_of_set_state; simpl;
    repeat split; repeat constructor; eauto.
Qed.

(** A step for one pane leaves what is held of the other panes alone. *)
Lemma other_panes_untouched past self pane looks_active buffer_text id :
  id <> pane_id pane ->
  state_of
    (exec world past
       (_maybe_notify_transition self pane looks_active buffer_text)).1 id
  = state_of self id.
Proof.
  intros Hid. rewrite maybe_notify_transition_exec. cbv zeta.
  destruct (observe _ _); unfold state_of, set_state; simpl;
    by rewrite lookup_insert_ne.
Qed.

Ltac tracker_step H :=
  match goal with
  | |- context [exec world ?p (_maybe_notify_transition ?s ?pn ?la ?b)] =>
      let He := fresh "He" in
      let Hn := fresh "Hn" in
      pose proof (step_summary p s pn la b) as H; cbv zeta in H;
      destruct (exec world p (_maybe_notify_transition s pn la b)) as [? ?];
      destruct H as (He & Hn & H & _)
  end.

(** C3. Whatever is observed first of a pane, active or idle, the tracker
    shows Initialized and does not call the dispatcher; it records the
    observed value. *)
Theorem first_observation_initialized past self pane looks_active buffer_text :
  last_seen_active (state_of self (pane_id pane)) = None ->
  let '(self', step) :=
    exec world past
      (_maybe_notify_transition self pane looks_active buffer_text) in
  emitted step = Some Initialized
  /\ notifications step = []
  /\ last_seen_active (state_of self' (pane_id pane)) = Some looks_active.
Proof.
  intros Hnew.
  pose proof (step_summary past self pane looks_active buffer_text) as Hs.
  cbv zeta in Hs. rewrite Hnew in Hs. simpl in Hs.
  destruct (exec _ _ _) as [self' step].
  destruct Hs as (He & Hn & Hst & _). by rewrite Hst.
Qed.

(** C1. Active, active, idle, idle, active, observed of one pane not seen
    before, show Initialized, NoChange, BecameIdle, NoChange, BecameActive;
    the dispatcher is called once, at the third observation, for that
    pane. *)
Theorem tracker_sequence past self pane b1 b2 b3 b4 b5 :
  last_seen_active (state_of self (pane_id pane)) = None ->
  let steps :=
    (observations world past self pane
       [(true, b1); (true, b2); (false, b3); (false, b4); (true, b5)]).1 in
  emitted <$> steps
  = [Some Initialized; Some NoChange; Some BecameIdle; Some NoChange;
     Some BecameActive]
  /\ notifications <$> steps = [[]; []; [pane]; []; []].
Proof.
  intros Hnew. cbv zeta. unfold observations.
  tracker_step H1. rewrite Hnew in *.
  tracker_step H2. rewrite H1 in *.
  tracker_step H3. rewrite H2 in *.
  tracker_step H4. rewrite H3 in *.
  tracker_step H5. rewrite H4 in *.
  simpl in *. by repeat match goal with Hq : _ = _ |- _ => rewrite Hq; clear Hq end.
Qed.

(** A sequence of observations, summed up: the value and the time the
    tracker holds at the end, and where the clock readings come from. *)
Lemma observations_summary obs past self pane :
  let '(steps, final) := observations world past self pane obs in
  length steps = length obs
  /\ last_transition_ts (state_of final (pane_id pane))
     = default (last_transition_ts (state_of self (pane_id pane)))
         (last (clock_readings (concat steps)))
  /\ last_seen_active (state_of final (pane_id pane))
     = default (last_seen_active (state_of self (pane_id pane)))
         (Some <$> last (obs.*1))
  /\ Forall (fun step =>
       length (clock_readings step)
       = (if emitted step is Some NoChange then 0 else 1)%nat) steps
  /\ Forall (fun t => exists past', t = world _ past' time_time)
       (clock_readings (concat steps)).
Proof.
  revert past self. induction obs as [|[looks_active buffer_text] obs IH];
    intros past self; simpl.
  { repeat split; constructor. }
  pose proof (step_summary past self pane looks_active buffer_text) as Hs.
  cbv zeta in Hs. destruct (exec _ _ _) as [self' step].
  destruct Hs as (He & _ & Hst & Hlen & Hw).
  specialize (IH (past ++ step) self').
  destruct (observations _ _ _ _ _) as [steps final].
  destruct IH as (IHlen & IHts & IHv & IHc & IHw). cbv iota beta.
  change (concat (step :: steps)) with (step ++ concat steps).
  unfold clock_readings in *. rewrite omap_app, last_app.
  split; [simpl; lia|]. split; [|split; [|split]].
  - rewrite IHts, Hst. simpl. by destruct (last (omap _ (concat steps))).
  - rewrite IHv, Hst, last_cons.
    change (list_fmap (bool * str)%type bool fst obs) with (obs.*1).
    by destruct (last (obs.*1)).
  - constructor; [|done]. rewrite Hlen, He.
    by destruct (observe _ _).
  - by apply Forall_app.
Qed.

(** C4. Once a pane has been observed, observing the value the tracker
    already holds does nothing at all: no call of the dispatcher, no reading
    of the clock, and the stored value and time stay as they are, however
    often this is repeated. *)
Theorem no_change_idempotent past self pane v obs :
  last_seen_active (state_of self (pane_id pane)) = Some v ->
  Forall (fun o => o.1 = v) obs ->
  let '(steps, final) := observations world past self pane obs in
  steps = replicate (length obs) []
  /\ Forall (fun step => emitted step = Some NoChange
                         /\ notifications step = []) steps
  /\ state_of final (pane_id pane) = state_of self (pane_id pane).
Proof.
  revert past self. induction obs as [|[looks_active buffer_text] obs IH];
    intros past self Hv Hobs; simpl.
  { repeat split; constructor. }
  apply Forall_cons in Hobs as [Ho Hobs]. simpl in Ho. subst looks_active.
  rewrite maybe_notify_transition_exec. cbv zeta. rewrite Hv.
  assert (observe (Some v) v = NoChange) as -> by (by destruct v).
  cbv iota beta. rewrite app_nil_r.
  set (self' := set_state _ _ _).
  assert (state_of self' (pane_id pane) = state_of self (pane_id pane)) as Hsame.
  { unfold self'. rewrite state_of_set_state.
    destruct (state_of self (pane_id pane)) as [seen ts]. simpl in *.
    by subst seen. }
  specialize (IH past self'). rewrite Hsame in IH.
  specialize (IH Hv Hobs).
  destruct (observations _ _ _ _ _) as [steps final].
  destruct IH as (-> & IHe & IHs). rewrite IHs.
  repeat split; try done. by constructor.
Qed.

(** C10. The first observation of a pane stores the time read then, although
    nothing has changed yet; from then on the stored time is that of the last
    step that showed Initialized, BecameIdle or BecameActive (each reads the
    clock once, NoChange never), and it is not 0.0 as long as the clock
    never reads 0.0. *)
Theorem timestamp_since_first_observation past self pane obs :
  last_seen_active (state_of self (pane_id pane)) = None ->
  obs <> [] ->
  let '(steps, final) := observations world past self pane obs in
  (exists first rest,
     steps = first :: rest /\ emitted first = Some Initialized
     /\ clock_readings first = [world _ past time_time])
  /\ last (clock_readings (concat steps))
     = Some (last_transition_ts (state_of final (pane_id pane)))
  /\ Forall (fun step =>
       length (clock_readings step)
       = (if emitted step is Some NoChange then 0 else 1)%nat) steps
  /\ ((forall past', PrimFloat.eqb (world _ past' time_time) 0 = false) ->
      PrimFloat.eqb (last_transition_ts (state_of final (pane_id pane))) 0
      = false).
Proof.
  intros Hnew Hobs.
  pose proof (observations_summary obs past self pane) as Hsum.
  destruct obs as [|[looks_active buffer_text] obs]; [done|]. simpl in *.
  rewrite maybe_notify_transition_exec in *. cbv zeta in *.
  rewrite Hnew in *. simpl observe in *. cbv iota beta in *.
  destruct (observations _ _ _ _ _) as [steps final].
  destruct Hsum as (_ & Hts & _ & Hc & Hw).
  assert (last (clock_readings
                  ([read_clock (world float past time_time);
                    logged (lit "Initialized state for " ++ human_ref pane
                            ++ lit ": active=" ++ of_bool looks_active)]
                   ++ concat steps))
          = Some (last_transition_ts (state_of final (pane_id pane)))) as Hlast.
  { rewrite Hts. destruct (last _) eqn:E; [done|].
    apply last_None in E. done. }
  split; [by eauto|]. split; [done|]. split; [done|].
  intros Hclock. apply last_Some_elem_of in Hlast.
  eapply Forall_forall in Hw as (past' & ->); [|exact Hlast]. apply Hclock.
Qed.

End Tracker.

(** ** The notification dispatcher *)

Section Dispatcher.
Variable world : env.

Lemma exec_bind {A B} past (p : Prog A) (f : A -> Prog B) :
  exec world past (p ≫= f)
  = let '(a, t1) := exec world past p in
    let '(b, t2) := exec world (past ++ t1) (f a) in
    (b, t1 ++ t2).
Proof.
  revert past. induction p as [a|X e k IH]; intros past.
  - change (Ret a ≫= f) with (f a). simpl. rewrite app_nil_r.
    by destruct (exec world past (f a)).
  - change (Vis e k ≫= f) with (Vis e (fun x => k x ≫= f)). simpl.
    rewrite IH. destruct (exec world _ (k _)) as [a t1].
    rewrite <- app_assoc. simpl. by destruct (exec world _ (f a)).
Qed.

Lemma send_idle_notification_unfold self pane :
  _send_idle_notification self pane
  = (branch ← _get_git_branch self (current_path pane);
     deliver self (idle_message pane branch)).
Proof. reflexivity. Qed.

(** The branch lookup: one run of git, and a name only for status 0 and a
    stripped output that is neither empty nor "HEAD". *)
Lemma get_git_branch_exec past self path :
  let r := world _ past (subprocess_run (git_argv path) 5) in
  exists branch,
    exec world past (_get_git_branch self path)
    = (branch, [ran (git_argv path) 5 r])
    /\ ((exists cp,
           r = inr cp /\ returncode cp = 0%Z
           /\ strip (stdout cp) <> [] /\ strip (stdout cp) <> lit "HEAD"
           /\ branch = Some (strip (stdout cp)))
        \/ (((exists exc, r = inl exc)
             \/ (exists cp,
                   r = inr cp
                   /\ (returncode cp <> 0%Z \/ strip (stdout cp) = []
                       \/ strip (stdout cp) = lit "HEAD")))
            /\ branch = None)).
Proof.
  cbv zeta. unfold _get_git_branch. fold (git_argv path).
  rewrite exec_trigger. cbv zeta.
  destruct (world _ past (subprocess_run (git_argv path) 5)) as [exc|cp].
  { eexists. split; [reflexivity|]. right. eauto. }
  destruct (returncode cp =? 0)%Z eqn:Hrc; simpl.
  2:{ eexists. split; [reflexivity|]. right. split; [|done].
      right. exists cp. split; [done|]. left. by apply Z.eqb_neq. }
  apply Z.eqb_eq in Hrc.
  destruct (strip (stdout cp)) as [|c out] eqn:Hout; simpl.
  { eexists. split; [reflexivity|]. right. split; [|done].
    right. exists cp. eauto. }
  case_bool_decide as Hhead; simpl.
  { eexists. split; [reflexivity|]. right. split; [|done].
    right. exists cp. rewrite Hout. eauto. }
  eexists. split; [reflexivity|]. left. exists cp. by rewrite Hout.
Qed.

(** What follows the lookup: the log call, and at most one request, which
    carries the message. *)
Lemma deliver_exec past self message :
  let tr := (exec world past (deliver self message)).2 in
  head (log_calls tr) = Some (lit "NOTIFY: " ++ message)
  /\ Forall (fun req => data req = [(lit "content", message)]) (deliveries tr)
  /\ (length (deliveries tr) <= 1)%nat
  /\ (dry_run self = true -> tr = [logged (lit "NOTIFY: " ++ message)]).
Proof.
  cbv zeta. unfold deliver. rewrite exec_trigger. cbv zeta.
  destruct (dry_run self); [simpl; repeat split; [constructor|lia]|].
  unfold _post_discord_message.
  destruct (webhook_url self) as [[|c u]|];
    try (simpl; repeat split; [constructor|lia|done]).
  set (req := Build_Request _ _ _ _). simpl.
  destruct (world _ _ (urlopen req 10)) as [exc|status]; simpl.
  { repeat split; [by repeat constructor|lia|done]. }
  destruct (negb _); simpl; (repeat split; [by repeat constructor|lia|done]).
Qed.

(** C7. The message names the pane as "session:window.pane" and gives its
    path; " (branch <name>)" is appended exactly when the lookup returns
    with status 0 and an output that, stripped, is neither empty nor "HEAD",
    and in every other case (an exception, another status, no output,
    "HEAD") nothing is appended and the dispatcher still returns. The message
    is what is logged after "NOTIFY: " and what any request carries. *)
Theorem idle_message_contents past self pane :
  let r := world _ past (subprocess_run (git_argv (current_path pane)) 5) in
  let tr := (exec world past (_send_idle_notification self pane)).2 in
  exists message suffix,
    message = lit "Cursor-Agent idle in " ++ human_ref pane ++ lit " " ++ dash
              ++ lit " " ++ current_path pane ++ suffix
    /\ head (log_calls tr) = Some (lit "NOTIFY: " ++ message)
    /\ Forall (fun req => data req = [(lit "content", message)]) (deliveries tr)
    /\ ((exists cp,
           r = inr cp /\ returncode cp = 0%Z
           /\ strip (stdout cp) <> [] /\ strip (stdout cp) <> lit "HEAD"
           /\ suffix = lit " (branch " ++ strip (stdout cp) ++ lit ")")
        \/ (((exists exc, r = inl exc)
             \/ (exists cp,
                   r = inr cp
                   /\ (returncode cp <> 0%Z \/ strip (stdout cp) = []
                       \/ strip (stdout cp) = lit "HEAD")))
            /\ suffix = [])).
Proof.
  cbv zeta. rewrite send_idle_notification_unfold, exec_bind.
  destruct (get_git_branch_exec past self (current_path pane))
    as (branch & -> & Hbranch).
  pose proof (deliver_exec
                (past ++ [ran (git_argv (current_path pane)) 5
                            (world _ past
                               (subprocess_run (git_argv (current_path pane)) 5))])
                self (idle_message pane branch)) as Hd.
  cbv zeta in Hd. destruct (exec world _ (deliver _ _)) as [[] tr].
  destruct Hd as (Hlog & Hreq & _). simpl.
  exists (idle_message pane branch).
  destruct Hbranch as [(cp & Er & Hrc & Hne & Hhead & ->)|[Hfail ->]].
  - exists (lit " (branch " ++ strip (stdout cp) ++ lit ")").
    split; [|split; [done|split; [done|left; eauto 10]]].
    unfold idle_message. destruct (strip (stdout cp)); [done|].
    by rewrite <- !app_assoc.
  - exists []. split; [|split; [done|split; [done|right; done]]].
    unfold idle_message. by rewrite app_nil_r.
Qed.

End Dispatcher.

(** ** The tracker and the dispatcher together *)

Section Linked.
Variable world : env.

Lemma exec_interp_bind h {A B} past (p : Prog A) (f : A -> Prog B) :
  exec world past (interp h (p ≫= f))
  = let '(a, t1) := exec world past (interp h p) in
    let '(b, t2) := exec world (past ++ t1) (interp h (f a)) in
    (b, t1 ++ t2).
Proof.
  revert past. induction p as [a|X e k IH]; intros past.
  - change (Ret a ≫= f) with (f a). simpl. rewrite app_nil_r.
    by destruct (exec world past (interp h (f a))).
  - change (Vis e k ≫= f) with (Vis e (fun x => k x ≫= f)).
    change (interp h (Vis e (fun x => k x ≫= f)))
      with (h _ e ≫= fun x => interp h (k x ≫= f)).
    change (interp h (Vis e k)) with (h _ e ≫= fun x => interp h (k x)).
    rewrite !(exec_bind world). destruct (exec world past (h X e)) as [x t0].
    rewrite IH. destruct (exec world _ (interp h (k x))) as [a t1].
    rewrite <- !app_assoc. destruct (exec world _ (interp h (f a))).
    by rewrite app_assoc.
Qed.

Lemma log_exec past self message :
  exists q, exec world past (log self message) = (tt, q) /\ quiet q.
Proof.
  unfold log. destruct (verbose self); simpl.
  - destruct (world unit _ (print _)). eexists. split; [reflexivity|done].
  - by exists [].
Qed.

Lemma log_method_call past self message :
  exists q,
    exec world past (interp (log_method self) (trigger (call_log message)))
    = (tt, logged message :: q) /\ quiet q.
Proof.
  change (interp (log_method self) (trigger (call_log message)))
    with ((trigger (call_log message) ;; log self message) ≫= Ret).
  rewrite !(exec_bind world). simpl.
  destruct (log_exec (past ++ [logged message]) self message) as (q & -> & Hq).
  rewrite app_nil_r. destruct (world unit past (call_log message)).
  by exists q.
Qed.

Lemma get_git_branch_carried_out past self path :
  exec world past (interp (log_method self) (_get_git_branch self path))
  = exec world past (_get_git_branch self path).
Proof.
  unfold _get_git_branch. simpl.
  destruct (world _ past _) as [exc|cp]; [done|].
  by destruct (_ && _).
Qed.

Lemma post_discord_message_exec past self message :
  exists r t,
    exec world past (interp (log_method self)
                       (_post_discord_message self message)) = (r, t)
    /\ notifications t = [] /\ clock_readings t = [] /\ log_calls t = []
    /\ (length (deliveries t) <= 1)%nat
    /\ ((forall past' req timeout,
           delivery_failed (world _ past' (urlopen req timeout))) ->
        exists exc, r = inl exc).
Proof.
  unfold _post_discord_message.
  destruct (webhook_url self) as [[|c u]|];
    try (eexists _, _; split; [reflexivity|];
         repeat split; simpl; eauto; lia).
  set (req := Build_Request _ _ _ _). simpl.
  destruct (world _ past (urlopen req 10)) as [exc|status] eqn:E; simpl.
  { eexists _, _. split; [reflexivity|]. repeat split; simpl; eauto. }
  destruct (negb _) eqn:Hrange; simpl.
  { eexists _, _. split; [reflexivity|]. repeat split; simpl; eauto. }
  eexists _, _. split; [reflexivity|]. repeat split; simpl; try done.
  intros Hfail. specialize (Hfail past req 10%Z). rewrite E in Hfail.
  simpl in Hfail. apply negb_false_iff, andb_true_iff in Hrange as [H1 H2].
  apply Z.leb_le in H1. apply Z.ltb_lt in H2. lia.
Qed.

(** The dispatcher after the lookup, with its [log] calls carried out. *)
Lemma deliver_carried_out past self message :
  exists q rest,
    exec world past (interp (log_method self) (deliver self message))
    = (tt, logged (lit "NOTIFY: " ++ message) :: q ++ rest)
    /\ quiet q
    /\ notifications rest = [] /\ clock_readings rest = []
    /\ (length (deliveries rest) <= 1)%nat
    /\ (dry_run self = true -> rest = [])
    /\ (dry_run self = false ->
        (forall past' req timeout,
           delivery_failed (world _ past' (urlopen req timeout))) ->
        exists m, logged (lit "Failed to send webhook: " ++ m) ∈ rest).
Proof.
  unfold deliver. rewrite exec_interp_bind.
  destruct (log_method_call past self (lit "NOTIFY: " ++ message))
    as (q & -> & Hq).
  exists q. destruct (dry_run self).
  { exists []. cbn. rewrite app_nil_r.
    split; [done|]. split; [done|]. repeat split; (done || lia). }
  rewrite exec_interp_bind.
  destruct (post_discord_message_exec
              (past ++ logged (lit "NOTIFY: " ++ message) :: q) self message)
    as (r & t & -> & Hn & Hc & Hl & Hd & Hfail).
  destruct r as [exc|[]].
  - destruct (log_method_call
                ((past ++ logged (lit "NOTIFY: " ++ message) :: q) ++ t) self
                (lit "Failed to send webhook: " ++ exn_str exc))
      as (q' & -> & Hq').
    destruct Hq' as (Hq1 & Hq2 & Hq3 & Hq4).
    exists (t ++ logged (lit "Failed to send webhook: " ++ exn_str exc) :: q').
    split; [done|]. split; [done|].
    unfold notifications, clock_readings, deliveries in *.
    rewrite !omap_app. cbn. rewrite Hn, Hc, Hq1, Hq3, Hq4, app_nil_r.
    repeat split; try done; [by rewrite app_nil_r|].
    intros _ _. exists (exn_str exc). set_solver.
  - exists t. cbn. rewrite app_nil_r.
    split; [done|]. split; [done|]. repeat split; try done.
    intros _ Hf. by destruct (Hfail Hf).
Qed.

Lemma send_idle_notification_carried_out past self pane :
  exec world past (interp (log_method self) (_send_idle_notification self pane))
  = let '(branch, t1) :=
      exec world past (_get_git_branch self (current_path pane)) in
    let '(u, t2) :=
      exec world (past ++ t1)
        (interp (log_method self) (deliver self (idle_message pane branch))) in
    (u, t1 ++ t2).
Proof.
  rewrite send_idle_notification_unfold, exec_interp_bind.
  by rewrite get_git_branch_carried_out.
Qed.

(** An active pane found idle, with the calls carried out: the dispatcher
    runs, then the clock is read and the state written. *)
Lemma transition_idle_carried_out past self pane buffer_text :
  last_seen_active (state_of self (pane_id pane)) = Some true ->
  exec world past
    (carried_out self (_maybe_notify_transition self pane false buffer_text))
  = let '(_, td) :=
      exec world (past ++ [notified pane])
        (interp (log_method self) (_send_idle_notification self pane)) in
    let t := world _ (past ++ notified pane :: td) time_time in
    (set_state self (pane_id pane)
       {| last_seen_active := Some false; last_transition_ts := t |},
     notified pane :: td ++ [read_clock t]).
Proof.
  intros Hseen. unfold carried_out, _maybe_notify_transition.
  fold (state_of self (pane_id pane)). rewrite Hseen.
  change (true && negb false) with true. cbv iota.
  set (write := fun now : float =>
                  set_state self (pane_id pane)
                    {| last_seen_active := Some false;
                       last_transition_ts := now |}).
  change (interp (methods self) _)
    with ((trigger (call_send_idle_notification pane) ;;
           interp (log_method self) (_send_idle_notification self pane))
          ≫= fun _ => trigger time_time ≫= fun now => Ret (write now)).
  generalize (interp (log_method self) (_send_idle_notification self pane)).
  intros d. rewrite (exec_bind world), exec_trigger. cbv zeta.
  destruct (world unit past (call_send_idle_notification pane)). cbn [effect_of].
  destruct (exec world (past ++ [notified pane]) d) as [[] td].
  rewrite exec_trigger. cbn. done.
Qed.

End Linked.

Section Transitions.
Context `{UnicodeDB}.
Variable world : env.

Lemma idle_message_suffix pane branch :
  exists suffix,
    idle_message pane branch
    = lit "Cursor-Agent idle in " ++ human_ref pane ++ lit " " ++ dash
      ++ lit " " ++ current_path pane ++ suffix.
Proof.
  unfold idle_message. destruct branch as [[|c b]|].
  - exists []. by rewrite app_nil_r.
  - exists (lit " (branch " ++ (c :: b) ++ lit ")"). by rewrite <- !app_assoc.
  - exists []. by rewrite app_nil_r.
Qed.

Lemma omap_snoc {A B} (f : A -> option B) l x :
  omap f (l ++ [x]) = omap f l ++ (match f x with Some y => [y] | None => [] end).
Proof. rewrite omap_app. simpl. by destruct (f x). Qed.

(** The for loop goes through its panes one after the other. *)
Lemma run_panes_cons past self self0 pane panes :
  exec world past (carried_out self0 (run_panes self (pane :: panes)))
  = let '(self1, t1) :=
      exec world past (carried_out self0 (run_pane self pane)) in
    let '(self2, t2) :=
      exec world (past ++ t1) (carried_out self0 (run_panes self1 panes)) in
    (self2, t1 ++ t2).
Proof. apply exec_interp_bind. Qed.

(** Observing the value already held does nothing, also with the calls
    carried out: there are none. *)
Lemma no_change_carried_out past self pane v buffer_text :
  last_seen_active (state_of self (pane_id pane)) = Some v ->
  (exec world past
     (carried_out self (_maybe_notify_transition self pane v buffer_text))).2
  = [].
Proof.
  intros Hseen. unfold carried_out, _maybe_notify_transition.
  fold (state_of self (pane_id pane)). rewrite Hseen. by destruct v.
Qed.

(** C6. When the delivery fails (the request raises, or the status is not
    2xx), an active pane found idle is still recorded: the error is caught
    and logged, the stored value becomes idle and the stored time is the one
    read after the attempt; there was at most one request, the next idle
    observation attempts nothing, and the loop over the panes goes on. *)
Theorem failed_delivery_commits past self pane buffer_text :
  last_seen_active (state_of self (pane_id pane)) = Some true ->
  dry_run self = false ->
  (forall past' req timeout,
     delivery_failed (world _ past' (urlopen req timeout))) ->
  let '(self', tr) :=
    exec world past
      (carried_out self (_maybe_notify_transition self pane false buffer_text)) in
  notifications tr = [pane]
  /\ (exists m, logged (lit "Failed to send webhook: " ++ m) ∈ tr)
  /\ (length (deliveries tr) <= 1)%nat
  /\ last_seen_active (state_of self' (pane_id pane)) = Some false
  /\ last (clock_readings tr)
     = Some (last_transition_ts (state_of self' (pane_id pane)))
  /\ (forall past' buffer_text',
        (exec world past'
           (carried_out self'
              (_maybe_notify_transition self' pane false buffer_text'))).2
        = [])
  /\ (forall past' self0 pane' panes,
        exec world past' (carried_out self0 (run_panes self' (pane' :: panes)))
        = let '(self1, t1) :=
            exec world past' (carried_out self0 (run_pane self' pane')) in
          let '(self2, t2) :=
            exec world (past' ++ t1)
              (carried_out self0 (run_panes self1 panes)) in
          (self2, t1 ++ t2)).
Proof.
  intros Hseen Hdry Hfail.
  rewrite transition_idle_carried_out by done.
  rewrite send_idle_notification_carried_out.
  destruct (get_git_branch_exec world (past ++ [notified pane]) self
              (current_path pane)) as (branch & -> & _).
  destruct (deliver_carried_out world
              ((past ++ [notified pane])
               ++ [ran (git_argv (current_path pane)) 5
                     (world _ (past ++ [notified pane])
                        (subprocess_run (git_argv (current_path pane)) 5))])
              self (idle_message pane branch))
    as (q & rest & -> & (Hq1 & Hq2 & Hq3 & Hq4) & Hn & Hc & Hd & _ & Hlog).
  cbv beta iota zeta. rewrite state_of_set_state.
  specialize (Hlog Hdry Hfail) as (m & Hm).
  unfold notifications, clock_readings, deliveries in *.
  split; [|split; [|split; [|split; [|split; [|split]]]]].
  - cbn. rewrite !omap_app. cbn. by rewrite Hq3, Hn.
  - exists m. set_solver.
  - cbn. rewrite !omap_app. cbn. rewrite Hq1, app_nil_r. simpl. lia.
  - done.
  - cbn. rewrite !omap_app. cbn. by rewrite Hq4, Hc.
  - intros past' buffer_text'. apply no_change_carried_out.
    by rewrite state_of_set_state.
  - intros. apply run_panes_cons.
Qed.

(** C8. In dry-run mode an active pane found idle is handed to the
    dispatcher, which builds and logs the message it would build otherwise
    (reference, path, branch suffix if any), and no request is made. *)
Theorem dry_run_transition past self pane buffer_text :
  last_seen_active (state_of self (pane_id pane)) = Some true ->
  dry_run self = true ->
  let dry :=
    (exec world past
       (carried_out self
          (_maybe_notify_transition self pane false buffer_text))).2 in
  let live := with_dry_run false self in
  let wet :=
    (exec world past
       (carried_out live
          (_maybe_notify_transition live pane false buffer_text))).2 in
  notifications dry = [pane]
  /\ deliveries dry = []
  /\ exists suffix,
       let message :=
         lit "Cursor-Agent idle in " ++ human_ref pane ++ lit " " ++ dash
         ++ lit " " ++ current_path pane ++ suffix in
       log_calls dry = [lit "NOTIFY: " ++ message]
       /\ head (log_calls wet) = Some (lit "NOTIFY: " ++ message).
Proof.
  intros Hseen Hdry. cbv zeta.
  rewrite !transition_idle_carried_out by done.
  rewrite !send_idle_notification_carried_out.
  change (_get_git_branch (with_dry_run false self) (current_path pane))
    with (_get_git_branch self (current_path pane)).
  destruct (get_git_branch_exec world (past ++ [notified pane]) self
              (current_path pane)) as (branch & -> & _).
  set (past1 := (past ++ [notified pane]) ++ _).
  destruct (deliver_carried_out world past1 self (idle_message pane branch))
    as (q & rest & -> & (Hq1 & Hq2 & Hq3 & Hq4) & Hn & Hc & Hd & Hrest & _).
  rewrite (Hrest Hdry) in *. clear Hrest.
  destruct (deliver_carried_out world past1 (with_dry_run false self)
              (idle_message pane branch))
    as (q' & rest' & -> & _).
  destruct (idle_message_suffix pane branch) as (suffix & ->).
  unfold notifications, deliveries, log_calls in *. cbn.
  rewrite !omap_app, !app_nil_r. cbn. rewrite Hq1, Hq2, Hq3.
  repeat split. by exists suffix.
Qed.

End Transitions.

(** ** The monitoring filter *)

Section Filter.
Variable world : env.

(** C5. A pane whose command matches the command pattern is monitored, and
    no buffer is looked at for it. For any other pane the filter captures
    the last 40 lines and answers true exactly when there is a text pattern,
    the capture succeeds and the pattern is found in it; a failed capture
    gives false, and so does a pane that matches neither pattern. *)
Theorem should_monitor_pane_decides past self pane :
  let cmd_matches :=
    exists pattern,
      match_command self = Some pattern
      /\ pattern (current_command pane) = true in
  let capture :=
    (exec world past (_capture_pane_text self (pane_id pane) 40)).1 in
  let answer := (exec world past (_should_monitor_pane self pane)).1 in
  (cmd_matches -> _should_monitor_pane self pane = Ret true)
  /\ (~ cmd_matches ->
      (answer = true <->
       exists pattern text,
         match_text self = Some pattern /\ capture = inr text
         /\ pattern text = true)
      /\ (forall exc, capture = inl exc -> answer = false)).
Proof.
  cbv zeta. unfold _should_monitor_pane. split.
  - intros (pattern & -> & ->). done.
  - intros Hcmd.
    assert (match match_command self with
            | Some pattern => pattern (current_command pane)
            | None => false
            end = false) as ->.
    { destruct (match_command self) as [pattern|]; [|done].
      destruct (pattern (current_command pane)) eqn:E; [|done].
      destruct Hcmd. eauto. }
    destruct (match_text self) as [pattern|].
    2:{ split; [|done]. split; [done|]. by intros (? & ? & ? & _). }
    rewrite (exec_bind world).
    destruct (exec world past (_capture_pane_text self (pane_id pane) 40))
      as [[exc|text] t1]; simpl.
    + split; [|done]. split; [done|]. by intros (? & ? & _ & ? & _).
    + split; [|done]. destruct (pattern text) eqn:E; simpl.
      * split; [|done]. intros _. exists pattern, text. done.
      * split; [done|]. intros (p' & text' & [= <-] & [= <-] & Hp).
        congruence.
Qed.

End Filter.

(** ** The scenario, run *)

Lemma tracker_sequence_witness :
  let steps :=
    (observations offline_world [] (example_notifier false) example_pane
       [(true, []); (true, []); (false, []); (false, []); (true, [])]).1 in
  emitted <$> steps
  = [Some Initialized; Some NoChange; Some BecameIdle; Some NoChange;
     Some BecameActive]
  /\ notifications <$> steps = [[]; []; [example_pane]; []; []].
Proof.
  exact (tracker_sequence offline_world [] (example_notifier false)
           example_pane [] [] [] [] [] eq_refl).
Defined.

Lemma first_observation_initialized_witness :
  let '(self', step) :=
    exec offline_world []
      (_maybe_notify_transition (example_notifier false) example_pane false []) in
  emitted step = Some Initialized
  /\ notifications step = []
  /\ last_seen_active (state_of self' (pane_id example_pane)) = Some false.
Proof.
  exact (first_observation_initialized offline_world [] (example_notifier false)
           example_pane false [] eq_refl).
Defined.

Lemma no_change_idempotent_witness :
  let obs := [(true, lit "12 tokens"); (true, lit "13 tokens")] in
  let '(steps, final) :=
    observations offline_world [] (seen_active false) example_pane obs in
  steps = replicate (length obs) []
  /\ Forall (fun step => emitted step = Some NoChange
                         /\ notifications step = []) steps
  /\ state_of final (pane_id example_pane)
     = state_of (seen_active false) (pane_id example_pane).
Proof.
  refine (no_change_idempotent offline_world [] (seen_active false)
            example_pane true
            [(true, lit "12 tokens"); (true, lit "13 tokens")] _ _).
  - vm_compute. reflexivity.
  - repeat constructor.
Defined.

Lemma failed_delivery_commits_witness :
  let '(self', tr) :=
    exec offline_world []
      (carried_out (seen_active false)
         (_maybe_notify_transition (seen_active false) example_pane false [])) in
  notifications tr = [example_pane]
  /\ (exists m, logged (lit "Failed to send webhook: " ++ m) ∈ tr)
  /\ (length (deliveries tr) <= 1)%nat
  /\ last_seen_active (state_of self' (pane_id example_pane)) = Some false
  /\ last (clock_readings tr)
     = Some (last_transition_ts (state_of self' (pane_id example_pane))).
Proof.
  pose proof (failed_delivery_commits (H := basic_db) offline_world []
                (seen_active false) example_pane []) as Hc.
  destruct (exec offline_world [] _) as [self' tr].
  destruct Hc as (H1 & H2 & H3 & H4 & H5 & _).
  - vm_compute. reflexivity.
  - reflexivity.
  - intros past' req timeout. exact I.
  - auto.
Defined.

Lemma dry_run_transition_witness :
  let dry :=
    (exec offline_world []
       (carried_out (seen_active true)
          (_maybe_notify_transition (seen_active true) example_pane false []))).2 in
  notifications dry = [example_pane] /\ deliveries dry = [].
Proof.
  pose proof (dry_run_transition offline_world [] (seen_active true)
                example_pane []) as Hd.
  cbv zeta in *. destruct Hd as (H1 & H2 & _).
  - vm_compute. reflexivity.
  - reflexivity.
  - auto.
Defined.

Lemma timestamp_since_first_observation_witness :
  let '(steps, final) :=
    observations offline_world [] (example_notifier false) example_pane
      [(true, []); (true, []); (false, [])] in
  last (clock_readings (concat steps))
  = Some (last_transition_ts (state_of final (pane_id example_pane)))
  /\ PrimFloat.eqb (last_transition_ts (state_of final (pane_id example_pane))) 0
     = false.
Proof.
  pose proof (timestamp_since_first_observation offline_world []
                (example_notifier false) example_pane
                [(true, []); (true, []); (false, [])]) as Ht.
  destruct (observations offline_world [] _ _ _) as [steps final].
  destruct Ht as (_ & H2 & _ & H4).
  - reflexivity.
  - discriminate.
  - split; [exact H2|]. apply H4. intros past'. reflexivity.
Defined.

(** The scenario run: what is logged when the pane goes idle on branch main
    and the webhook is out of reach, and the one request that was tried. *)
Example scenario_log :
  let tr :=
    (exec offline_world []
       (carried_out (seen_active false)
          (_maybe_notify_transition (seen_active false) example_pane false []))).2 in
  log_calls tr
  = [lit "NOTIFY: Cursor-Agent idle in work:0.1 " ++ dash
     ++ lit " /home/u/proj (branch main)";
     lit "Failed to send webhook: <urlopen error timed out>"]
  /\ length (deliveries tr) = 1%nat.
Proof. vm_compute. done. Qed.

(** The classifier on ASCII text, with the basic tables. *)
Example classifier_active :
  _detect_active (H := basic_db) (lit "Generating... 1234 Tokens") = true.
Proof. vm_compute. reflexivity. Qed.

Example classifier_idle :
  _detect_active (H := basic_db) (lit "done; mytokens and tokens_left") = false.
Proof. vm_compute. reflexivity. Qed.

Example classifier_span :
  search (H := basic_db) TOKEN_REGEX (lit "123" ++ LF :: lit "tokens")
  = Some (0%nat, 10%nat).
Proof. vm_compute. reflexivity. Qed.

Lemma detect_active_tail_witness :
  _detect_active (H := basic_db)
    (lit "thinking" ++ LF :: lit "1234 Tokens used") = true
  /\ _detect_active (H := basic_db) (lit "$ ls") = false.
Proof.
  split.
  - apply (proj1 (proj2 (detect_active_tail _))).
    exists (lit "1234 Tokens used"). split; [vm_compute; set_solver|].
    right. exists [], (lit "1234"), (lit " "), (lit "Tokens"), (lit " used").
    repeat split; try done; repeat constructor.
  - apply (proj1 (detect_active_tail _)).
    intros l Hl Hi%token_indicator_standalone%standalone_length.
    vm_compute in Hl. apply list_elem_of_singleton in Hl as ->.
    simpl in Hi. lia.
Defined.

Lemma detect_active_across_lines_witness :
  _detect_active (H := basic_db) (lit "123" ++ LF :: lit "tokens") = true.
Proof. exact (proj1 (proj2 (detect_active_across_lines (H := basic_db)))). Defined.

Lemma should_monitor_pane_decides_witness :
  let self :=
    {| webhook_url := None; interval_seconds := 7; scan_lines := 120;
       match_command := Some (fun s => bool_decide (s = lit "cursor-agent"));
       match_text := None; verbose := false; dry_run := true;
       pane_id_to_state := ∅ |} in
  _should_monitor_pane self example_pane = Ret true.
Proof.
  cbv zeta.
  apply (proj1 (should_monitor_pane_decides offline_world [] _ example_pane)).
  eexists. split; [reflexivity|]. vm_compute. reflexivity.
Defined.

(** * More of the notifier *)

(** ** What a program can trigger *)

Section Only.

Lemma only_bind P {A B} (p : Prog A) (f : A -> Prog B) :
  only P p -> (forall a, only P (f a)) -> only P (p ≫= f).
Proof.
  intros Hp Hf. induction Hp as [a|X e k He Hk IH].
  - apply Hf.
  - change (Vis e k ≫= f) with (Vis e (fun x => k x ≫= f)).
    by constructor.
Qed.

Lemma only_trigger P {X} (e : event X) : P X e -> only P (trigger e).
Proof. intros He. constructor; [done|]. intros x. constructor. Qed.

Lemma only_weaken (P P' : forall X, event X -> Prop) {A} (p : Prog A) :
  (forall X e, P X e -> P' X e) -> only P p -> only P' p.
Proof. intros HP. induction 1; constructor; auto. Qed.

Lemma only_interp (P0 P : forall X, event X -> Prop) h {A} (p : Prog A) :
  only P0 p -> (forall X e, P0 X e -> only P (h X e)) -> only P (interp h p).
Proof.
  intros Hp Hh. induction Hp as [a|X e k He Hk IH]; [constructor|].
  change (interp h (Vis e k)) with (h X e ≫= fun x => interp h (k x)).
  apply only_bind; auto.
Qed.

Lemma only_exec (P : forall X, event X -> Prop) (Q : effect -> Prop)
    world {A} (p : Prog A) past :
  (forall X (e : event X) x, P X e -> Q (effect_of e x)) ->
  only P p -> Forall Q (exec world past p).2.
Proof.
  intros HPQ Hp. revert past. induction Hp as [a|X e k He Hk IH]; intros past.
  - constructor.
  - simpl. specialize (IH (world X past e) (past ++ [effect_of e (world X past e)])).
    destruct (exec world _ (k _)) as [a tr]. simpl in *.
    constructor; auto.
Qed.

End Only.

Ltac only_step :=
  first
    [ apply only_Ret
    | apply only_trigger
    | apply only_bind; [|intros ?]
    | match goal with
      | |- only _ (match ?x with _ => _ end) => destruct x eqn:?
      end ].

Ltac only_tac := repeat only_step.

(** ** What the loop triggers

    Whatever holds of the basic events below holds of every event a turn of
    the loop triggers, the calls on [self] carried out. *)

Section LoopEvents.
Context `{UnicodeDB}.
Variable self : Notifier.
Variable P : forall X, event X -> Prop.
Hypothesis P_tmux :
  forall argv, head argv = Some TMUX -> P _ (subprocess_run argv 5).
Hypothesis P_git :
  forall argv, head argv = Some (lit "git") -> P _ (subprocess_run argv 5).
Hypothesis P_post :
  dry_run self = false ->
  forall req, webhook_request self req -> P _ (urlopen req 10).
Hypothesis P_strftime :
  verbose self = true -> forall format, P _ (time_strftime format).
Hypothesis P_print : verbose self = true -> forall line, P _ (print line).
Hypothesis P_log : forall message, P _ (call_log message).
Hypothesis P_time : P _ time_time.
Hypothesis P_call : forall pane, P _ (call_send_idle_notification pane).

Ltac event_ok :=
  first
    [ apply P_tmux; reflexivity
    | apply P_git; reflexivity
    | apply P_post;
      [solve [auto]|unfold webhook_request; cbn; solve [eauto 10]]
    | apply P_strftime; solve [auto]
    | apply P_print; solve [auto]
    | apply P_log
    | apply P_time
    | apply P_call ].

Lemma only_log message : only P (log self message).
Proof using P_strftime P_print. unfold log. only_tac; event_ok. Qed.

Lemma only_log_method {A} (p : Prog A) :
  only P p -> only P (interp (log_method self) p).
Proof using P_strftime P_print P_log.
  intros Hp. apply (only_interp P P); [done|].
  intros X e He. destruct e; try (by apply only_trigger).
  change (log_method self _ (call_log message))
    with (trigger (call_log message) ;; log self message).
  apply only_bind; [apply only_trigger; event_ok|].
  intros _. apply only_log.
Qed.

Lemma only_send_idle_notification pane :
  only P (_send_idle_notification self pane).
Proof using P_git P_post P_log.
  unfold _send_idle_notification, _get_git_branch, _post_discord_message.
  only_tac; event_ok.
Qed.

Lemma only_methods {A} (p : Prog A) :
  only P p -> only P (carried_out self p).
Proof using P_git P_post P_strftime P_print P_log P_call.
  intros Hp. apply (only_interp P P); [done|].
  intros X e He. destruct e; try (by apply only_trigger).
  - change (methods self _ (call_log message))
      with (trigger (call_log message) ;; log self message).
    apply only_bind; [apply only_trigger; event_ok|].
    intros _. apply only_log.
  - change (methods self _ (call_send_idle_notification pane))
      with (trigger (call_send_idle_notification pane) ;;
            interp (log_method self) (_send_idle_notification self pane)).
    apply only_bind; [apply only_trigger; event_ok|].
    intros _. apply only_log_method, only_send_idle_notification.
Qed.

Lemma only_capture_pane_text self' id lines :
  only P (_capture_pane_text self' id lines).
Proof using P_tmux. unfold _capture_pane_text. only_tac; event_ok. Qed.

Lemma only_list_tmux_panes self' : only P (_list_tmux_panes self').
Proof using P_tmux. unfold _list_tmux_panes. only_tac; event_ok. Qed.

Lemma only_should_monitor_pane self' pane :
  only P (_should_monitor_pane self' pane).
Proof using P_tmux.
  unfold _should_monitor_pane. only_tac; event_ok.
Qed.

Lemma only_maybe_notify_transition self' pane looks_active buffer_text :
  only P (_maybe_notify_transition self' pane looks_active buffer_text).
Proof using P_log P_time P_call.
  unfold _maybe_notify_transition. only_tac; event_ok.
Qed.

Lemma only_run_pane self' pane : only P (run_pane self' pane).
Proof using P_tmux P_log P_time P_call.
  unfold run_pane. apply only_bind; [apply only_should_monitor_pane|].
  intros monitored. destruct (negb monitored); [constructor|].
  apply only_bind; [apply only_capture_pane_text|].
  intros [exc|text]; [only_tac; event_ok|].
  apply only_maybe_notify_transition.
Qed.

Lemma only_run_panes self' panes : only P (run_panes self' panes).
Proof using P_tmux P_log P_time P_call.
  revert self'. induction panes as [|pane panes IH]; intros self'.
  - constructor.
  - apply only_bind; [apply only_run_pane|]. intros self''. apply IH.
Qed.

Lemma only_run_cycle self' :
  (forall seconds, P _ (time_sleep seconds)) -> only P (run_cycle self').
Proof using P_tmux P_log P_time P_call.
  intros P_sleep. unfold run_cycle.
  apply only_bind; [apply only_list_tmux_panes|].
  intros [exc|panes].
  - only_tac; first [event_ok | apply P_sleep].
  - apply only_bind; [apply only_run_panes|]. intros self''.
    only_tac. apply P_sleep.
Qed.

End LoopEvents.

(** ** The loop as a whole *)

Section Turn.
Context `{UnicodeDB}.
Variable world : env.

Lemma only_run_turns (P : forall X, event X -> Prop) turns self :
  (forall self', only P (run_cycle self')) -> only P (run_turns turns self).
Proof.
  intros Hcycle. revert self. induction turns as [|turns IH]; intros self.
  - constructor.
  - apply only_bind; [apply Hcycle|]. intros self'. apply IH.
Qed.

Lemma allowed_effect_of self X (e : event X) x :
  allowed_event self X e -> allowed_effect self (effect_of e x).
Proof. by destruct e. Qed.

(** Every event of the loop, the calls on [self] carried out, is one a
    notifier may trigger. *)
Lemma only_allowed_turns self turns self' :
  only (allowed_event self) (carried_out self (run_turns turns self')).
Proof.
  apply only_methods; try (by cbn; auto).
  apply only_run_turns. intros self''. apply only_run_cycle; by cbn; auto.
Qed.

Lemma allowed_turns past self turns :
  Forall (allowed_effect self)
    (exec world past (carried_out self (run_turns turns self))).2.
Proof.
  apply (only_exec (allowed_event self)); [apply allowed_effect_of|].
  apply only_allowed_turns.
Qed.

(** X1. However many turns the loop makes and whatever tmux, git and the
    webhook answer, it runs no other program than tmux and git, each with a
    timeout of 5 seconds, and makes no other request than a POST with a
    timeout of 10 seconds. *)
Theorem loop_calls_bounded turns past self :
  Forall bounded_effect
    (exec world past (carried_out self (run_turns turns self))).2.
Proof.
  eapply Forall_impl; [apply allowed_turns|].
  intros [] Heff; simpl in *; try done.
  by destruct Heff as (_ & (_ & _ & _ & ?) & ?).
Qed.

(** X2. In dry-run mode the loop makes no request at all, however many turns
    it makes and whatever the panes show. *)
Theorem dry_run_loop_opens_nothing turns past self :
  dry_run self = true ->
  Forall (fun eff => is_opened eff = false)
    (exec world past (carried_out self (run_turns turns self))).2.
Proof.
  intros Hdry. eapply Forall_impl; [apply allowed_turns|].
  intros [] Heff; simpl in *; try done. destruct Heff. congruence.
Qed.

(** X3. Unless verbose, the loop prints nothing and does not format the
    time, however many turns it makes: [log] is called, and returns at
    once. *)
Theorem silent_loop_prints_nothing turns past self :
  verbose self = false ->
  Forall (fun eff => is_printed eff = false)
    (exec world past (carried_out self (run_turns turns self))).2.
Proof.
  intros Hquiet. eapply Forall_impl; [apply allowed_turns|].
  intros [] Heff; simpl in *; congruence.
Qed.

(** X4. Every request the loop makes, in however many turns, goes to the
    webhook of the notifier and nowhere else, as a POST of a JSON object that
    has a content and no other field. *)
Theorem requests_go_to_webhook turns past self :
  Forall (fun eff =>
            match eff with
            | opened req _ _ =>
                webhook_url self = Some (url req)
                /\ (exists content, data req = [(lit "content", content)])
                /\ headers req = [(lit "Content-Type", lit "application/json")]
                /\ method req = lit "POST"
            | _ => True
            end)
    (exec world past (carried_out self (run_turns turns self))).2.
Proof.
  eapply Forall_impl; [apply allowed_turns|].
  intros [] Heff; simpl in *; try done. by destruct Heff as (_ & ? & _).
Qed.

End Turn.

(** ** What a program can return *)

Section Yields.

Lemma yields_bind {A B} (Q : A -> Prop) (R : B -> Prop) p (f : A -> Prog B) :
  yields Q p -> (forall a, Q a -> yields R (f a)) -> yields R (p ≫= f).
Proof.
  intros Hp Hf. induction Hp as [a Ha|X e k Hk IH].
  - by apply Hf.
  - change (Vis e k ≫= f) with (Vis e (fun x => k x ≫= f)).
    by constructor.
Qed.

Lemma yields_anything {A} (p : Prog A) : yields (fun _ => True) p.
Proof. induction p; by constructor. Qed.

Lemma yields_trigger {X} (e : event X) : yields (fun _ => True) (trigger e).
Proof. apply yields_anything. Qed.

Lemma yields_interp h {A} (Q : A -> Prop) (p : Prog A) :
  yields Q p -> yields Q (interp h p).
Proof.
  induction 1 as [a Ha|X e k Hk IH]; [by constructor|].
  change (interp h (Vis e k)) with (h X e ≫= fun x => interp h (k x)).
  eapply yields_bind; [apply yields_anything|]. intros x _. apply IH.
Qed.

Lemma yields_exec world {A} (Q : A -> Prop) (p : Prog A) past :
  yields Q p -> Q (exec world past p).1.
Proof.
  intros Hp. revert past. induction Hp as [a Ha|X e k Hk IH]; intros past.
  - done.
  - simpl.
    specialize (IH (world X past e) (past ++ [effect_of e (world X past e)])).
    by destruct (exec world _ (k _)).
Qed.

End Yields.

Ltac yields_step :=
  first
    [ apply yields_Ret
    | eapply yields_bind; [apply yields_anything|intros ? _]
    | match goal with
      | |- yields _ (match ?x with _ => _ end) => destruct x eqn:?
      end ].

(** ** What the loop keeps *)

Section Kept.
Context `{UnicodeDB}.

Lemma kept_refl self : kept self self.
Proof. by repeat split. Qed.

Lemma kept_trans a b c : kept a b -> kept b c -> kept a c.
Proof.
  intros (Hs1 & Hd1 & Ha1) (Hs2 & Hd2 & Ha2). split; [|split; auto].
  unfold same_settings in *.
  destruct Hs1 as (-> & -> & -> & -> & -> & -> & ->). done.
Qed.

Lemma kept_set_state self id state :
  is_Some (last_seen_active state) -> kept self (set_state self id state).
Proof.
  intros Hseen. split; [by repeat split|]. split.
  - intros id' Hid'. simpl. destruct (decide (id' = id)) as [->|Hne].
    + by rewrite lookup_insert_eq.
    + by rewrite lookup_insert_ne.
  - intros Hall. by apply map_Forall_insert_2.
Qed.

Lemma yields_weaken {A} (Q R : A -> Prop) (p : Prog A) :
  (forall a, Q a -> R a) -> yields Q p -> yields R p.
Proof. intros HQR. induction 1; constructor; auto. Qed.

Lemma kept_maybe_notify_transition self pane looks_active buffer_text :
  yields (kept self)
    (_maybe_notify_transition self pane looks_active buffer_text).
Proof.
  unfold _maybe_notify_transition.
  repeat yields_step; by apply kept_set_state.
Qed.

Lemma kept_run_pane self pane : yields (kept self) (run_pane self pane).
Proof.
  unfold run_pane. eapply yields_bind; [apply yields_anything|].
  intros monitored _. destruct (negb monitored).
  { constructor. apply kept_refl. }
  eapply yields_bind; [apply yields_anything|].
  intros [exc|text] _.
  - repeat yields_step. apply kept_refl.
  - apply kept_maybe_notify_transition.
Qed.

Lemma kept_run_panes self panes : yields (kept self) (run_panes self panes).
Proof.
  revert self. induction panes as [|pane panes IH]; intros self.
  - constructor. apply kept_refl.
  - change (run_panes self (pane :: panes))
      with (run_pane self pane ≫= fun self' => run_panes self' panes).
    eapply yields_bind; [apply kept_run_pane|].
    intros self' Hk. eapply yields_weaken; [|apply IH].
    intros self''. by apply kept_trans.
Qed.

Lemma kept_run_cycle self : yields (kept self) (run_cycle self).
Proof.
  unfold run_cycle. eapply yields_bind; [apply yields_anything|].
  intros [exc|panes] _.
  - repeat yields_step. apply kept_refl.
  - eapply yields_bind; [apply kept_run_panes|].
    intros self' Hk. by repeat yields_step.
Qed.

Lemma kept_run_turns turns self : yields (kept self) (run_turns turns self).
Proof.
  revert self. induction turns as [|turns IH]; intros self.
  - constructor. apply kept_refl.
  - change (run_turns (S turns) self)
      with (run_cycle self ≫= fun self' => run_turns turns self').
    eapply yields_bind; [apply kept_run_cycle|].
    intros self' Hk. eapply yields_weaken; [|apply IH].
    intros self''. by apply kept_trans.
Qed.

End Kept.

(** ** The loop, turn after turn *)

Section Turns.
Context `{UnicodeDB}.
Variable world : env.

Lemma sleeps_quiet tr :
  Forall (fun eff => is_slept eff = false) tr -> sleeps tr = [].
Proof.
  induction 1 as [|eff tr Heff _ IH]; [done|].
  destruct eff; try done. 
Qed.

Lemma not_sleep_effect X (e : event X) x :
  not_sleep X e -> is_slept (effect_of e x) = false.
Proof. by destruct e. Qed.

Lemma sleeps_app a b : sleeps (a ++ b) = sleeps a ++ sleeps b.
Proof. apply omap_app. Qed.

Lemma carried_out_no_sleep self0 {A} (p : Prog A) past :
  only not_sleep p -> sleeps (exec world past (carried_out self0 p)).2 = [].
Proof.
  intros Hp. apply sleeps_quiet.
  apply (only_exec not_sleep _ world _ past not_sleep_effect).
  by apply only_methods.
Qed.

Lemma sleep_carried_out self0 {A} (a : A) seconds past :
  exec world past
    (carried_out self0 (trigger (time_sleep seconds) ;; Ret a))
  = (a, [slept seconds]).
Proof. reflexivity. Qed.

(** A turn sleeps once, at its end, for the interval of the notifier. *)
Lemma turn_sleeps self0 self past :
  sleeps (exec world past (carried_out self0 (run_cycle self))).2
  = [interval_seconds self].
Proof.
  unfold carried_out, run_cycle. rewrite exec_interp_bind.
  pose proof (carried_out_no_sleep self0 (_list_tmux_panes self) past) as Hlist.
  unfold carried_out in Hlist.
  destruct (exec world past (interp (methods self0) (_list_tmux_panes self)))
    as [[exc|panes] t1]; simpl in Hlist.
  - rewrite exec_interp_bind.
    pose proof (carried_out_no_sleep self0
                  (trigger (call_log (lit "Failed to list tmux panes: "
                                      ++ exn_str exc))) (past ++ t1)) as Hlog.
    unfold carried_out in Hlog.
    destruct (exec world (past ++ t1) (interp (methods self0) (trigger _)))
      as [[] t2]; simpl in Hlog.
    fold (carried_out self0 (trigger (time_sleep (interval_seconds self)) ;;
                             Ret self)).
    rewrite sleep_carried_out. simpl.
    rewrite !sleeps_app, Hlist, Hlog; [done|by apply only_trigger|].
    by apply only_list_tmux_panes.
  - rewrite exec_interp_bind.
    pose proof (carried_out_no_sleep self0 (run_panes self panes) (past ++ t1))
      as Hpanes.
    unfold carried_out in Hpanes.
    destruct (exec world (past ++ t1) (interp (methods self0) (run_panes _ _)))
      as [self' t2]; simpl in Hpanes.
    fold (carried_out self0 (trigger (time_sleep (interval_seconds self)) ;;
                             Ret self')).
    rewrite sleep_carried_out. simpl.
    rewrite !sleeps_app, Hlist, Hpanes; [done|by apply only_run_panes|].
    by apply only_list_tmux_panes.
Qed.




(** X6. However many turns the loop makes and whatever they meet, the
    settings of the notifier stay as they are, no pane loses its state, and
    if every pane with a state has been observed this is still so. *)
Theorem loop_keeps_settings_and_states turns past self :
  let self' := (exec world past (carried_out self (run_turns turns self))).1 in
  same_settings self self'
  /\ (forall id, is_Some (pane_id_to_state self !! id) ->
                 is_Some (pane_id_to_state self' !! id))
  /\ (all_seen self -> all_seen self').
Proof.
  apply (yields_exec world (kept self)), yields_interp, kept_run_turns.
Qed.

End Turns.

(** ** What a turn does when there is nothing to watch *)

Section Skips.
Context `{UnicodeDB}.
Variable world : env.

Lemma list_tmux_panes_exec past self :
  exists r,
    exec world past (_list_tmux_panes self)
    = (r, [ran list_argv 5 (world _ past (subprocess_run list_argv 5))]).
Proof.
  unfold _list_tmux_panes. fold list_argv. rewrite exec_trigger. cbv zeta.
  destruct (world _ past (subprocess_run list_argv 5)) as [exc|cp];
    [by eexists|].
  destruct (negb _); by eexists.
Qed.

Lemma list_tmux_panes_carried_out past self0 self :
  exec world past (carried_out self0 (_list_tmux_panes self))
  = exec world past (_list_tmux_panes self).
Proof.
  unfold carried_out, _list_tmux_panes. simpl.
  destruct (world _ past _) as [exc|cp]; [done|].
  by destruct (negb _).
Qed.

Lemma log_printed past self message :
  Forall (fun eff => is_printed eff = true)
    (exec world past (log self message)).2.
Proof.
  unfold log. destruct (verbose self); simpl; [|constructor].
  by repeat constructor.
Qed.

Lemma printed_runs q :
  Forall (fun eff => is_printed eff = true) q -> runs q = [] /\ sleeps q = [].
Proof.
  induction 1 as [|eff q Heff _ IH]; [done|]. by destruct eff.
Qed.

Lemma log_call_carried_out past self message :
  exists q,
    exec world past (carried_out self (trigger (call_log message)))
    = (tt, logged message :: q)
    /\ quiet q /\ Forall (fun eff => is_printed eff = true) q.
Proof.
  change (carried_out self (trigger (call_log message)))
    with ((trigger (call_log message) ;; log self message) ≫= Ret).
  rewrite !(exec_bind world). simpl.
  pose proof (log_printed (past ++ [logged message]) self message) as Hp.
  destruct (log_exec world (past ++ [logged message]) self message)
    as (q & Hq & Hquiet).
  rewrite Hq in Hp |- *. rewrite app_nil_r.
  destruct (world unit past (call_log message)). by exists q.
Qed.

(** The end of a turn that could not list the panes. *)
Lemma failed_turn_end past self0 self message :
  exists q,
    exec world past
      (carried_out self0
         (trigger (call_log message) ;;
          trigger (time_sleep (interval_seconds self)) ;; Ret self))
    = (self, logged message :: q ++ [slept (interval_seconds self)])
    /\ quiet q /\ Forall (fun eff => is_printed eff = true) q.
Proof.
  unfold carried_out. rewrite exec_interp_bind.
  destruct (log_call_carried_out past self0 message) as (q & Hq & Hquiet).
  unfold carried_out in Hq. rewrite Hq.
  fold (carried_out self0
          (trigger (time_sleep (interval_seconds self)) ;; Ret self)).
  rewrite sleep_carried_out. by exists q.
Qed.

(** X7. When the panes cannot be listed (tmux raises, or ends with another
    status than 0), the turn is given up: the failure is logged with the
    text of the exception, nothing is captured, notified or sent, the
    notifier is as before, and the loop sleeps its interval as in any turn. *)
Theorem listing_failure_skips_turn past self exc :
  (exec world past (_list_tmux_panes self)).1 = inl exc ->
  let '(self', tr) := exec world past (carried_out self (run_cycle self)) in
  self' = self
  /\ runs tr = [list_argv]
  /\ log_calls tr = [lit "Failed to list tmux panes: " ++ exn_str exc]
  /\ notifications tr = [] /\ deliveries tr = []
  /\ sleeps tr = [interval_seconds self].
Proof.
  intros Hfail. unfold carried_out, run_cycle. rewrite exec_interp_bind.
  fold (carried_out self (_list_tmux_panes self)).
  rewrite list_tmux_panes_carried_out.
  destruct (list_tmux_panes_exec past self) as (r & Hr).
  rewrite Hr in Hfail |- *. simpl in Hfail. subst r.
  match goal with
  | |- context [exec world ?p (interp (methods self) ?prog)] =>
      destruct (failed_turn_end p self self
                  (lit "Failed to list tmux panes: " ++ exn_str exc))
        as (q & Hq & (Hq1 & Hq2 & Hq3 & Hq4) & Hprinted)
  end.
  apply printed_runs in Hprinted as [Hq5 Hq6].
  unfold carried_out in Hq. rewrite Hq.
  unfold runs, log_calls, notifications, deliveries, sleeps in *.
  cbn [omap list_omap app]. rewrite !omap_app, Hq1, Hq2, Hq3, Hq5, Hq6.
  by cbn.
Qed.

Lemma run_panes_unmonitored self panes :
  match_command self = None -> match_text self = None ->
  run_panes self panes = Ret self.
Proof.
  intros Hcmd Htext. induction panes as [|pane panes IH]; [done|].
  change (run_panes self (pane :: panes))
    with (run_pane self pane ≫= fun self' => run_panes self' panes).
  unfold run_pane, _should_monitor_pane. rewrite Hcmd, Htext. exact IH.
Qed.

(** X8. A notifier made with both patterns empty watches no pane: a turn
    lists the panes and does nothing else with them; no pane is captured,
    none gets a state, nothing is notified or sent. *)
Theorem empty_patterns_watch_nothing re_compile url interval lines loud dry
    past :
  let self := Notifier_init re_compile url interval lines [] [] loud dry in
  let '(self', tr) := exec world past (carried_out self (run_cycle self)) in
  self' = self
  /\ runs tr = [list_argv]
  /\ notifications tr = [] /\ deliveries tr = [] /\ clock_readings tr = [].
Proof.
  cbv zeta. set (self := Notifier_init _ _ _ _ _ _ _ _).
  unfold carried_out, run_cycle. rewrite exec_interp_bind.
  fold (carried_out self (_list_tmux_panes self)).
  rewrite list_tmux_panes_carried_out.
  destruct (list_tmux_panes_exec past self) as ([exc|panes] & ->).
  - match goal with
    | |- context [exec world ?p (interp (methods self) ?prog)] =>
        destruct (failed_turn_end p self self
                    (lit "Failed to list tmux panes: " ++ exn_str exc))
          as (q & Hq & (Hq1 & Hq2 & Hq3 & Hq4) & Hprinted)
    end.
    apply printed_runs in Hprinted as [Hq5 Hq6].
    unfold carried_out in Hq. rewrite Hq.
    unfold runs, log_calls, notifications, deliveries, clock_readings in *.
    cbn [omap list_omap app]. rewrite !omap_app, Hq1, Hq3, Hq4, Hq5.
    by cbn.
  - rewrite run_panes_unmonitored by done.
    change (Ret self ≫= _)
      with (trigger (time_sleep (interval_seconds self)) ;; Ret self).
    fold (carried_out self
            (trigger (time_sleep (interval_seconds self)) ;; Ret self)).
    by rewrite sleep_carried_out.
Qed.

End Skips.

(** ** Requests and notifications *)

Section Requests.
Context `{UnicodeDB}.
Variable world : env.

Lemma send_idle_requests past self pane :
  (length (deliveries
     (exec world past
        (interp (log_method self) (_send_idle_notification self pane))).2)
   <= 1)%nat.
Proof.
  rewrite send_idle_notification_carried_out.
  destruct (get_git_branch_exec world past self (current_path pane))
    as (branch & -> & _).
  match goal with
  | |- context [exec world ?p (interp _ (deliver self ?m))] =>
      destruct (deliver_carried_out world p self m)
        as (q & rest & -> & (Hq & _) & _ & _ & Hrest & _)
  end.
  unfold deliveries in *. cbn. by rewrite omap_app, Hq.
Qed.

Lemma method_requests self X (e : event X) past :
  loop_event X e ->
  let tr := (exec world past (methods self X e)).2 in
  (length (deliveries tr) <= length (notifications tr))%nat.
Proof.
  intros He. destruct e; try done; try (cbn; lia).
  - cbv zeta.
    change (methods self _ (call_log message))
      with (trigger (call_log message) ;; log self message).
    rewrite exec_trigger. cbv zeta. cbn [effect_of].
    match goal with
    | |- context [exec world ?p (log self message)] =>
        destruct (log_exec world p self message) as (q & -> & Hq & _)
    end.
    unfold deliveries in *. cbn. rewrite Hq. simpl. lia.
  - cbv zeta.
    change (methods self _ (call_send_idle_notification pane))
      with (trigger (call_send_idle_notification pane) ;;
            interp (log_method self) (_send_idle_notification self pane)).
    rewrite exec_trigger. cbv zeta. cbn [effect_of].
    match goal with
    | |- context [exec world ?p (interp ?h ?d)] =>
        pose proof (send_idle_requests p self pane) as Hd;
        destruct (exec world p (interp h d)) as [u td]
    end.
    simpl in *. lia.
Qed.

(** With the calls on [self] carried out, a program that makes no request
    of its own makes at most one for each pane it hands to the dispatcher. *)
Lemma carried_out_requests self {A} (p : Prog A) past :
  only loop_event p ->
  let tr := (exec world past (carried_out self p)).2 in
  (length (deliveries tr) <= length (notifications tr))%nat.
Proof.
  intros Hp. revert past. induction Hp as [a|X e k He Hk IH]; intros past.
  { simpl. lia. }
  cbv zeta. unfold carried_out.
  change (interp (methods self) (Vis e k))
    with (methods self X e ≫= fun x => interp (methods self) (k x)).
  rewrite (exec_bind world).
  pose proof (method_requests self X e past He) as H0. cbv zeta in H0.
  destruct (exec world past (methods self X e)) as [x t0].
  specialize (IH x (past ++ t0)). cbv zeta in IH. unfold carried_out in IH.
  destruct (exec world (past ++ t0) (interp (methods self) (k x))) as [a t1].
  simpl in *. unfold deliveries, notifications in *.
  rewrite !omap_app, !length_app. lia.
Qed.





(** X9. However many turns the loop makes, it makes at most one request for
    each pane it hands to the dispatcher: nothing but an active pane found
    idle leads to a request, and a failed request is not tried again. *)
Theorem requests_at_most_notifications turns past self :
  let tr := (exec world past (carried_out self (run_turns turns self))).2 in
  (length (deliveries tr) <= length (notifications tr))%nat.
Proof.
  apply carried_out_requests, only_run_turns.
  intros self'. apply only_run_cycle; by cbn; auto.
Qed.


End Requests.

(** ** The tracker over a row of observations *)

Section Edges.
Variable world : env.

(** X11. Over any row of observations of a pane, the tracker hands the pane
    to the dispatcher once for each time it goes from active to idle, and
    never otherwise: not at the first observation, not when it becomes
    active, not while it stays as it is. *)
Theorem notified_once_per_falling_edge obs past self pane :
  let '(steps, final) := observations world past self pane obs in
  notifications (concat steps)
  = replicate
      (falling_edges (last_seen_active (state_of self (pane_id pane))) (obs.*1))
      pane.
Proof.
  revert past self. induction obs as [|[looks_active buffer_text] obs IH];
    intros past self; [done|]. simpl.
  pose proof (step_summary world past self pane looks_active buffer_text) as Hs.
  cbv zeta in Hs. destruct (exec _ _ _) as [self' step].
  destruct Hs as (_ & Hn & Hst & _).
  specialize (IH (past ++ step) self').
  destruct (observations _ _ _ _ _) as [steps final]. cbv iota beta.
  change (concat (step :: steps)) with (step ++ concat steps).
  unfold notifications in *. rewrite omap_app, IH, Hn, Hst. simpl.
  change (list_fmap (bool * str)%type bool fst obs) with (obs.*1).
  by destruct (observe _ _).
Qed.

End Edges.

(** ** The listing of the panes *)

Section Listing.
Variable world : env.

Lemma str_split_from_app sep part f rest :
  Forall (fun c => c <> sep) f ->
  str_split_from sep part (f ++ rest) = str_split_from sep (part ++ f) rest.
Proof.
  intros Hf. revert part. induction Hf as [|c f Hc _ IH]; intros part.
  - by rewrite app_nil_r.
  - simpl. apply N.eqb_neq in Hc. rewrite Hc, IH. by rewrite <- app_assoc.
Qed.

(** Splitting what was joined gives the pieces back. *)
Lemma str_split_join sep part p ps :
  Forall (Forall (fun c => c <> sep)) (p :: ps) ->
  str_split_from sep part (join [sep] (p :: ps)) = (part ++ p) :: ps.
Proof.
  revert part p. induction ps as [|q ps IH]; intros part p Hall.
  - apply Forall_cons in Hall as [Hp _].
    change (join [sep] [p]) with p. rewrite <- (app_nil_r p) at 1.
    by rewrite str_split_from_app.
  - apply Forall_cons in Hall as [Hp Hall].
    change (join [sep] (p :: q :: ps)) with (p ++ sep :: join [sep] (q :: ps)).
    rewrite str_split_from_app by done. cbn [str_split_from].
    rewrite N.eqb_refl. by rewrite IH.
Qed.

Lemma join_Forall (Q : N -> Prop) sep parts :
  Forall Q sep -> Forall (Forall Q) parts -> Forall Q (join sep parts).
Proof.
  intros Hsep. induction 1 as [|p ps Hp Hps IH]; [constructor|].
  destruct ps as [|q ps]; [done|].
  change (join sep (p :: q :: ps)) with (p ++ sep ++ join sep (q :: ps)).
  by repeat apply Forall_app_2.
Qed.

Lemma plain_field_no_tab f : plain_field f -> Forall (fun c => c <> TAB) f.
Proof. intros Hf. eapply Forall_impl; [exact Hf|]. simpl. tauto. Qed.

Lemma plain_field_no_break f :
  plain_field f -> Forall (fun c => islinebreak c = false) f.
Proof. intros Hf. eapply Forall_impl; [exact Hf|]. simpl. tauto. Qed.

Lemma pane_of_line_of_pane pane :
  plain_pane pane -> pane_of_line (line_of_pane pane) = Some pane.
Proof.
  destruct pane as [f1 f2 f3 f4 flag f6 f7 f8].
  intros (H1 & H2 & H3 & H4 & H6 & H7 & H8). simpl in *.
  unfold pane_of_line, str_split, line_of_pane.
  cbn [session_name window_index pane_index pane_id is_active_flag
       current_path pane_pid current_command].
  rewrite str_split_join.
  - cbn [app]. by destruct flag.
  - repeat (apply Forall_cons; split); try by apply plain_field_no_tab.
    + destruct flag; by repeat constructor.
    + constructor.
Qed.

Lemma line_of_pane_no_break pane :
  plain_pane pane ->
  Forall (fun c => islinebreak c = false) (line_of_pane pane).
Proof.
  intros (H1 & H2 & H3 & H4 & H6 & H7 & H8). apply join_Forall.
  { by repeat constructor. }
  repeat (apply Forall_cons; split); try by apply plain_field_no_break.
  - destruct (is_active_flag pane); by repeat constructor.
  - constructor.
Qed.

Lemma splitlines_from_plain line f rest :
  Forall (fun c => islinebreak c = false) f ->
  splitlines_from line (f ++ LF :: rest) = (line ++ f) :: splitlines rest.
Proof.
  intros Hf. revert line. induction Hf as [|c f Hc _ IH]; intros line.
  - change ([] ++ LF :: rest) with (LF :: rest).
    by rewrite splitlines_from_LF, app_nil_r.
  - change ((c :: f) ++ LF :: rest) with (c :: (f ++ LF :: rest)).
    cbn [splitlines_from]. rewrite Hc, IH. by rewrite <- app_assoc.
Qed.

Lemma splitlines_listing panes :
  Forall plain_pane panes ->
  splitlines (listing_of panes) = line_of_pane <$> panes.
Proof.
  induction 1 as [|pane panes Hpane _ IH]; [done|].
  change (listing_of (pane :: panes))
    with ((line_of_pane pane ++ [LF]) ++ listing_of panes).
  rewrite <- app_assoc.
  change ([LF] ++ listing_of panes) with (LF :: listing_of panes).
  unfold splitlines at 1.
  rewrite splitlines_from_plain by by apply line_of_pane_no_break.
  by rewrite IH.
Qed.

Lemma omap_pane_of_line panes :
  Forall plain_pane panes ->
  omap pane_of_line (line_of_pane <$> panes) = panes.
Proof.
  induction 1 as [|pane panes Hpane _ IH]; [done|]. rewrite fmap_cons.
  change (omap pane_of_line (line_of_pane pane :: (line_of_pane <$> panes)))
    with (match pane_of_line (line_of_pane pane) with
          | Some y => y :: omap pane_of_line (line_of_pane <$> panes)
          | None => omap pane_of_line (line_of_pane <$> panes)
          end).
  by rewrite pane_of_line_of_pane, IH.
Qed.

(** X12. When tmux ends with status 0 and prints a line for each pane in
    the format asked for, [_list_tmux_panes] returns just these panes, in
    order, each field as tmux had it, provided no field holds a tab or a
    line break. *)
Theorem listed_panes_round_trip past self panes cp :
  Forall plain_pane panes ->
  world _ past (subprocess_run list_argv 5) = inr cp ->
  returncode cp = 0%Z ->
  stdout cp = listing_of panes ->
  exec world past (_list_tmux_panes self)
  = (inr panes, [ran list_argv 5 (inr cp)]).
Proof.
  intros Hplain Hworld Hrc Hout. unfold _list_tmux_panes. fold list_argv.
  rewrite exec_trigger. cbv zeta. rewrite Hworld, Hrc, Hout.
  cbn -[splitlines omap pane_of_line list_argv].
  by rewrite splitlines_listing, omap_pane_of_line.
Qed.

Lemma str_split_from_length sep part s :
  length (str_split_from sep part s)
  = S (length (filter (fun c => c = sep) s)).
Proof.
  revert part. induction s as [|c s IH]; intros part; [done|].
  cbn [str_split_from]. rewrite filter_cons.
  destruct (N.eqb_spec c sep) as [->|Hne].
  - rewrite decide_True by done. simpl. by rewrite IH.
  - rewrite decide_False by done. apply IH.
Qed.

Lemma str_split_from_plain (Q : N -> Prop) sep part s :
  Forall (fun c => c <> sep /\ Q c) part -> Forall Q s ->
  Forall (Forall (fun c => c <> sep /\ Q c)) (str_split_from sep part s).
Proof.
  intros Hpart Hs. revert part Hpart.
  induction Hs as [|c s Hc _ IH]; intros part Hpart.
  { by repeat constructor. }
  cbn [str_split_from]. destruct (N.eqb_spec c sep) as [->|Hne].
  - constructor; [done|]. apply IH. constructor.
  - apply IH. apply Forall_app_2; [done|]. by repeat constructor.
Qed.

Lemma splitlines_from_no_break s :
  forall line,
    Forall (fun c => islinebreak c = false) line ->
    Forall (Forall (fun c => islinebreak c = false)) (splitlines_from line s).
Proof.
  induction s as [s IH] using (induction_ltof1 _ length). unfold ltof in IH.
  intros line Hline. destruct s as [|c s]; simpl.
  { destruct line; [constructor|]. constructor; [done|constructor]. }
  destruct (islinebreak c) eqn:Hc.
  - constructor; [done|]. destruct s as [|d s]; [constructor|].
    destruct ((c =? CR) && (d =? LF)).
    + apply IH; [simpl; lia|constructor].
    + apply IH; [simpl; lia|constructor].
  - apply IH; [simpl; lia|]. apply Forall_app_2; [done|].
    by repeat constructor.
Qed.

Lemma pane_of_line_plain line pane :
  Forall (fun c => islinebreak c = false) line ->
  pane_of_line line = Some pane -> plain_pane pane.
Proof.
  intros Hline. unfold pane_of_line, str_split.
  pose proof (str_split_from_plain _ TAB [] line (Forall_nil_2 _) Hline) as Hall.
  destruct (str_split_from TAB [] line)
    as [|f1 [|f2 [|f3 [|f4 [|f5 [|f6 [|f7 [|f8 [|f9 fs]]]]]]]]]; try done.
  intros [= <-].
  apply Forall_cons in Hall as [H1 Hall]. apply Forall_cons in Hall as [H2 Hall].
  apply Forall_cons in Hall as [H3 Hall]. apply Forall_cons in Hall as [H4 Hall].
  apply Forall_cons in Hall as [H5 Hall]. apply Forall_cons in Hall as [H6 Hall].
  apply Forall_cons in Hall as [H7 Hall]. apply Forall_cons in Hall as [H8 _].
  by repeat split.
Qed.

Lemma pane_of_line_tabs line :
  is_Some (pane_of_line line) <-> tabs line = 7%nat.
Proof.
  unfold tabs, pane_of_line, str_split.
  pose proof (str_split_from_length TAB [] line) as Hlen.
  destruct (str_split_from TAB [] line)
    as [|f1 [|f2 [|f3 [|f4 [|f5 [|f6 [|f7 [|f8 [|f9 fs]]]]]]]]];
    simpl in Hlen; (split; [intros [pane Hpane]; try done; lia|]);
    intros Htabs; try lia.
  by eexists.
Qed.

Lemma omap_length_filter {A B} (f : A -> option B) (Q : A -> Prop)
    `{forall x, Decision (Q x)} l :
  (forall x, is_Some (f x) <-> Q x) ->
  length (omap f l) = length (filter Q l).
Proof.
  intros Hf. induction l as [|x l IH]; [done|].
  change (omap f (x :: l))
    with (match f x with Some y => y :: omap f l | None => omap f l end).
  rewrite filter_cons. destruct (f x) as [y|] eqn:Hx.
  - rewrite decide_True by (apply Hf; eauto). cbn [length]. by rewrite IH.
  - rewrite decide_False; [done|]. rewrite <- Hf, Hx. by intros [? ?].
Qed.

(** X13. When tmux ends with status 0, whatever it printed,
    [_list_tmux_panes] returns one pane for each line that has exactly seven
    tabs and passes over every other line; no field of a pane it returns
    holds a tab or a line break. *)
Theorem listed_panes_are_plain past self cp :
  world _ past (subprocess_run list_argv 5) = inr cp ->
  returncode cp = 0%Z ->
  exists panes,
    (exec world past (_list_tmux_panes self)).1 = inr panes
    /\ Forall plain_pane panes
    /\ length panes
       = length (filter (fun line => tabs line = 7%nat)
                   (splitlines (stdout cp))).
Proof.
  intros Hworld Hrc. unfold _list_tmux_panes. fold list_argv.
  rewrite exec_trigger. cbv zeta. rewrite Hworld, Hrc.
  cbn -[splitlines omap pane_of_line list_argv].
  eexists. split; [reflexivity|]. split.
  - pose proof (splitlines_from_no_break (stdout cp) [] (Forall_nil_2 _))
      as Hlines.
    fold (splitlines (stdout cp)) in Hlines.
    induction Hlines as [|line lines Hline _ IH]; [constructor|].
    change (omap pane_of_line (line :: lines))
      with (match pane_of_line line with
            | Some y => y :: omap pane_of_line lines
            | None => omap pane_of_line lines
            end).
    destruct (pane_of_line line) as [pane|] eqn:Hpane; [|done].
    constructor; [|done]. by eapply pane_of_line_plain.
  - apply omap_length_filter, pane_of_line_tabs.
Qed.

End Listing.

(** ** Blank text, and the name of the branch *)

Section Edge.
Context `{UnicodeDB}.
Variable world : env.

Lemma lstrip_blank s : Forall (fun c => isspace c = true) s -> lstrip s = [].
Proof. induction 1 as [|c s Hc _ IH]; [done|]. simpl. by rewrite Hc. Qed.

Lemma strip_blank s : Forall (fun c => isspace c = true) s -> strip s = [].
Proof. intros Hs. unfold strip. by rewrite lstrip_blank. Qed.

Lemma splitlines_from_Forall (Q : N -> Prop) s :
  forall line,
    Forall Q line -> Forall Q s -> Forall (Forall Q) (splitlines_from line s).
Proof.
  induction s as [s IH] using (induction_ltof1 _ length). unfold ltof in IH.
  intros line Hline Hs. destruct s as [|c s]; simpl.
  { destruct line; [constructor|]. constructor; [done|constructor]. }
  apply Forall_cons in Hs as [Hc Hs]. destruct (islinebreak c).
  - constructor; [done|]. destruct s as [|d s]; [constructor|].
    destruct ((c =? CR) && (d =? LF)).
    + apply Forall_cons in Hs as [_ Hs]. apply IH; [simpl; lia|constructor|done].
    + apply IH; [simpl; lia|constructor|done].
  - apply IH; [simpl; lia| |done]. apply Forall_app_2; [done|].
    by repeat constructor.
Qed.

Lemma stripped_lines_blank text :
  Forall (fun c => isspace c = true) text -> stripped_lines text = [].
Proof.
  intros Htext. unfold stripped_lines, splitlines.
  pose proof (splitlines_from_Forall _ text [] (Forall_nil_2 _) Htext) as Hlines.
  induction Hlines as [|line lines Hline _ IH]; [done|].
  rewrite fmap_cons, filter_cons, strip_blank by done.
  by rewrite decide_False.
Qed.

(** X14. A text with nothing but white space in it, the empty text among
    them, does not look active: a pane whose screen was cleared is idle. *)
Theorem blank_text_looks_idle text :
  Forall (fun c => isspace c = true) text -> _detect_active text = false.
Proof.
  intros Htext. destruct (_detect_active text) eqn:Hactive; [|done].
  apply detect_active_iff in Hactive as (l & Hl & _).
  unfold tail_lines in Hl. rewrite stripped_lines_blank in Hl by done.
  by apply elem_of_nil in Hl.
Qed.

Lemma lstrip_head s c r : lstrip s = c :: r -> isspace c = false.
Proof.
  induction s as [|d s IH]; [done|]. simpl.
  destruct (isspace d) eqn:Hd; [done|]. by intros [= <- _].
Qed.

Lemma lstrip_suffix s : exists blank, s = blank ++ lstrip s.
Proof.
  induction s as [|d s [blank IH]]; [by exists []|]. simpl.
  destruct (isspace d); [|by exists []].
  exists (d :: blank). simpl. by f_equal.
Qed.

(** What [strip] leaves has no white space at either end. *)
Lemma strip_ends s :
  (forall c, head (strip s) = Some c -> isspace c = false)
  /\ (forall c, last (strip s) = Some c -> isspace c = false).
Proof.
  unfold strip, rstrip.
  assert (Hlast : forall c, last (reverse (lstrip (reverse (lstrip s)))) = Some c ->
                            isspace c = false).
  { intros c. rewrite last_reverse.
    destruct (lstrip (reverse (lstrip s))) as [|d r] eqn:E; [done|].
    intros [= <-]. by eapply lstrip_head. }
  split; [|done]. intros c Hc.
  destruct (lstrip_suffix (reverse (lstrip s))) as (blank & Hblank).
  apply (f_equal reverse) in Hblank.
  rewrite reverse_involutive, reverse_app in Hblank.
  destruct (reverse (lstrip (reverse (lstrip s)))) as [|d r] eqn:E; [done|].
  simpl in Hc. injection Hc as ->. simpl in Hblank.
  by eapply lstrip_head.
Qed.

(** X15. The branch [_get_git_branch] returns is never empty, never "HEAD",
    and has no white space at either end: the line break git prints after
    the name does not get into the message. The lookup is one run of git,
    with a timeout of 5 seconds. *)
Theorem git_branch_is_stripped past self path branch :
  (exec world past (_get_git_branch self path)).1 = Some branch ->
  branch <> [] /\ branch <> lit "HEAD"
  /\ (forall c, head branch = Some c -> isspace c = false)
  /\ (forall c, last branch = Some c -> isspace c = false)
  /\ exists r, (exec world past (_get_git_branch self path)).2
               = [ran (git_argv path) 5 r].
Proof.
  destruct (get_git_branch_exec world past self path)
    as (b & -> & [(cp & _ & _ & Hne & Hhead & ->)|[_ ->]]); [|done].
  intros [= <-]. destruct (strip_ends (stdout cp)) as [Hfirst Hlast].
  repeat split; eauto.
Qed.

End Edge.

(** ** A pane that is watched *)

Section Watched.
Context `{UnicodeDB}.
Variable world : env.

Lemma capture_pane_text_exec past self id lines :
  exists r,
    exec world past (_capture_pane_text self id lines)
    = (r, [ran (capture_argv id lines) 5
             (world _ past (subprocess_run (capture_argv id lines) 5))]).
Proof.
  unfold _capture_pane_text. fold (capture_argv id lines).
  rewrite exec_trigger. cbv zeta.
  destruct (world _ past (subprocess_run (capture_argv id lines) 5))
    as [exc|cp]; [by eexists|].
  destruct (negb _); by eexists.
Qed.

Lemma capture_pane_text_carried_out past self0 self id lines :
  exec world past (carried_out self0 (_capture_pane_text self id lines))
  = exec world past (_capture_pane_text self id lines).
Proof.
  unfold carried_out, _capture_pane_text. simpl.
  destruct (world _ past _) as [exc|cp]; [done|].
  by destruct (negb _).
Qed.

Lemma monitored_by_command self pane pattern :
  match_command self = Some pattern ->
  pattern (current_command pane) = true ->
  run_pane self pane
  = (r ← _capture_pane_text self (pane_id pane) (scan_lines self);
     match r with
     | inl exc =>
         trigger (call_log (lit "Failed to capture " ++ human_ref pane
                            ++ lit ": " ++ exn_str exc)) ;;
         Ret self
     | inr buffer_text =>
         _maybe_notify_transition self pane (_detect_active buffer_text)
           buffer_text
     end).
Proof.
  intros Hcmd Hmatch. unfold run_pane, _should_monitor_pane.
  by rewrite Hcmd, Hmatch.
Qed.

(** X16. When a pane is watched for its command and its screen cannot be
    captured, the pane is passed over for this turn: the failure is logged
    with the reference of the pane and the text of the exception, nothing is
    notified or sent, no clock is read, and the notifier, the state of the
    pane included, is as before. *)
Theorem capture_failure_skips_pane past self pane pattern exc :
  match_command self = Some pattern ->
  pattern (current_command pane) = true ->
  (exec world past
     (_capture_pane_text self (pane_id pane) (scan_lines self))).1 = inl exc ->
  let '(self', tr) := exec world past (carried_out self (run_pane self pane)) in
  self' = self
  /\ runs tr = [capture_argv (pane_id pane) (scan_lines self)]
  /\ log_calls tr = [lit "Failed to capture " ++ human_ref pane ++ lit ": "
                     ++ exn_str exc]
  /\ notifications tr = [] /\ deliveries tr = [] /\ clock_readings tr = [].
Proof.
  intros Hcmd Hmatch Hfail.
  rewrite (monitored_by_command self pane pattern) by done.
  unfold carried_out. rewrite exec_interp_bind.
  fold (carried_out self
          (_capture_pane_text self (pane_id pane) (scan_lines self))).
  rewrite capture_pane_text_carried_out.
  destruct (capture_pane_text_exec past self (pane_id pane) (scan_lines self))
    as (r & Hr).
  rewrite Hr in Hfail |- *. simpl in Hfail. subst r.
  rewrite exec_interp_bind.
  match goal with
  | |- context [exec world ?p (interp (methods self) (trigger (call_log ?m)))] =>
      destruct (log_call_carried_out world p self m)
        as (q & Hq & (Hq1 & Hq2 & Hq3 & Hq4) & Hprinted)
  end.
  apply printed_runs in Hprinted as [Hq5 _].
  unfold carried_out in Hq. rewrite Hq.
  unfold runs, log_calls, notifications, deliveries, clock_readings in *.
  cbn [interp exec app omap list_omap]. rewrite !app_nil_r.
  by rewrite Hq1, Hq2, Hq3, Hq4, Hq5.
Qed.

Lemma run_panes_app past self0 self panes1 panes2 :
  exec world past (carried_out self0 (run_panes self (panes1 ++ panes2)))
  = let '(self1, t1) :=
      exec world past (carried_out self0 (run_panes self panes1)) in
    let '(self2, t2) :=
      exec world (past ++ t1) (carried_out self0 (run_panes self1 panes2)) in
    (self2, t1 ++ t2).
Proof.
  revert past self. induction panes1 as [|pane panes1 IH]; intros past self.
  - cbn. rewrite app_nil_r. by destruct (exec world past _).
  - change ((pane :: panes1) ++ panes2) with (pane :: (panes1 ++ panes2)).
    rewrite !run_panes_cons.
    destruct (exec world past (carried_out self0 (run_pane self pane)))
      as [self1 t1].
    rewrite IH.
    destruct (exec world (past ++ t1) (carried_out self0 (run_panes self1 panes1)))
      as [self2 t2].
    rewrite <- app_assoc.
    destruct (exec world (past ++ t1 ++ t2)
                (carried_out self0 (run_panes self2 panes2))) as [self3 t3].
    by rewrite app_assoc.
Qed.

(** The loop over the panes leaves the state of a pane that is not among
    them alone. *)
Lemma frame_maybe_notify_transition self pane looks_active buffer_text id :
  id <> pane_id pane ->
  yields (fun self' => state_of self' id = state_of self id)
    (_maybe_notify_transition self pane looks_active buffer_text).
Proof.
  intros Hid. unfold _maybe_notify_transition.
  repeat yields_step; unfold state_of, set_state; simpl;
    by rewrite lookup_insert_ne.
Qed.

Lemma frame_run_pane self pane id :
  id <> pane_id pane ->
  yields (fun self' => state_of self' id = state_of self id)
    (run_pane self pane).
Proof.
  intros Hid. unfold run_pane. eapply yields_bind; [apply yields_anything|].
  intros monitored _. destruct (negb monitored); [by constructor|].
  eapply yields_bind; [apply yields_anything|].
  intros [exc|text] _.
  - by repeat yields_step.
  - by apply frame_maybe_notify_transition.
Qed.

Lemma frame_run_panes self panes id :
  id ∉ pane_id <$> panes ->
  yields (fun self' => state_of self' id = state_of self id)
    (run_panes self panes).
Proof.
  revert self. induction panes as [|pane panes IH]; intros self Hid.
  - by constructor.
  - rewrite fmap_cons in Hid. apply not_elem_of_cons in Hid as [Hne Hid].
    change (run_panes self (pane :: panes))
      with (run_pane self pane ≫= fun self' => run_panes self' panes).
    eapply yields_bind; [by apply frame_run_pane|].
    intros self' Hself'. eapply yields_weaken; [|by apply IH].
    intros self'' Hself''. simpl in *. congruence.
Qed.

(** An active pane found idle, whoever carries out the calls. *)
Lemma idle_step_carried_out past self0 self pane buffer_text :
  last_seen_active (state_of self (pane_id pane)) = Some true ->
  let '(self', tr) :=
    exec world past
      (carried_out self0
         (_maybe_notify_transition self pane false buffer_text)) in
  head tr = Some (notified pane)
  /\ last_seen_active (state_of self' (pane_id pane)) = Some false.
Proof.
  intros Hseen. unfold carried_out, _maybe_notify_transition.
  fold (state_of self (pane_id pane)). rewrite Hseen.
  change (true && negb false) with true. cbv iota.
  set (write := fun now : float =>
                  set_state self (pane_id pane)
                    {| last_seen_active := Some false;
                       last_transition_ts := now |}).
  change (interp (methods self0) _)
    with ((trigger (call_send_idle_notification pane) ;;
           interp (log_method self0) (_send_idle_notification self0 pane))
          ≫= fun _ => trigger time_time ≫= fun now => Ret (write now)).
  generalize (interp (log_method self0) (_send_idle_notification self0 pane)).
  intros d. rewrite (exec_bind world), exec_trigger. cbv zeta.
  destruct (world unit past (call_send_idle_notification pane)). cbn [effect_of].
  destruct (exec world (past ++ [notified pane]) d) as [[] td].
  rewrite exec_trigger. cbn. unfold write. by rewrite state_of_set_state.
Qed.

Lemma watched_idle_step past self0 self pane pattern text :
  match_command self = Some pattern ->
  pattern (current_command pane) = true ->
  last_seen_active (state_of self (pane_id pane)) = Some true ->
  (exec world past
     (_capture_pane_text self (pane_id pane) (scan_lines self))).1 = inr text ->
  _detect_active text = false ->
  let '(self', tr) := exec world past (carried_out self0 (run_pane self pane)) in
  pane ∈ notifications tr
  /\ last_seen_active (state_of self' (pane_id pane)) = Some false.
Proof.
  intros Hcmd Hmatch Hseen Hcap Hidle.
  rewrite (monitored_by_command self pane pattern) by done.
  unfold carried_out. rewrite exec_interp_bind.
  fold (carried_out self0
          (_capture_pane_text self (pane_id pane) (scan_lines self))).
  rewrite capture_pane_text_carried_out.
  destruct (capture_pane_text_exec past self (pane_id pane) (scan_lines self))
    as (r & Hr).
  rewrite Hr in Hcap |- *. simpl in Hcap. subst r. rewrite Hidle.
  match goal with
  | |- context [exec world ?p (interp (methods self0) ?prog)] =>
      pose proof (idle_step_carried_out p self0 self pane text Hseen) as Hstep;
      unfold carried_out in Hstep;
      destruct (exec world p (interp (methods self0) prog)) as [self' tr]
  end.
  destruct Hstep as [Hhead Hstate]. split; [|done].
  destruct tr as [|eff tr]; [done|]. injection Hhead as ->.
  unfold notifications. cbn. set_solver.
Qed.

(** X17. In a turn of the loop, a pane of the listing that is watched for
    its command, was last seen active and now shows no token indicator is
    handed to the dispatcher, and is idle in the state the turn leaves,
    wherever it stands among the other panes. *)
Theorem turn_notifies_idle_pane past self panes pane pattern :
  (exec world past (_list_tmux_panes self)).1 = inr panes ->
  NoDup (pane_id <$> panes) ->
  pane ∈ panes ->
  match_command self = Some pattern ->
  pattern (current_command pane) = true ->
  last_seen_active (state_of self (pane_id pane)) = Some true ->
  (forall past',
     exists text,
       (exec world past'
          (_capture_pane_text self (pane_id pane) (scan_lines self))).1
       = inr text
       /\ _detect_active text = false) ->
  let '(self', tr) := exec world past (carried_out self (run_cycle self)) in
  pane ∈ notifications tr
  /\ last_seen_active (state_of self' (pane_id pane)) = Some false
  /\ sleeps tr = [interval_seconds self].
Proof.
  intros Hlist Hdup Hpane Hcmd Hmatch Hseen Hcap.
  pose proof (turn_sleeps world self self past) as Hsleep.
  unfold carried_out, run_cycle in *. rewrite exec_interp_bind in *.
  fold (carried_out self (_list_tmux_panes self)) in *.
  rewrite list_tmux_panes_carried_out in *.
  destruct (list_tmux_panes_exec world past self) as (r & Hr).
  rewrite Hr in Hlist, Hsleep |- *. simpl in Hlist. subst r.
  rewrite exec_interp_bind in *.
  apply list_elem_of_split in Hpane as (before & after & ->).
  rewrite fmap_app, fmap_cons in Hdup.
  apply NoDup_app in Hdup as (_ & Hbefore & Hafter).
  apply NoDup_cons in Hafter as [Hafter _].
  assert (Hb : pane_id pane ∉ pane_id <$> before).
  { intros Hin. apply (Hbefore _ Hin). left. }
  set (past1 := past ++ [ran list_argv 5 (world _ past (subprocess_run list_argv 5))]) in *.
  fold (carried_out self (run_panes self (before ++ pane :: after))) in *.
  rewrite run_panes_app in *.
  pose proof (yields_exec world _ _ past1
                (yields_interp (methods self) _ _ (kept_run_panes self before)))
    as ((_ & _ & Hlines & Hsamecmd & _) & _).
  pose proof (yields_exec world _ _ past1
                (yields_interp (methods self) _ _
                   (frame_run_panes self before (pane_id pane) Hb)))
    as Hstate1.
  fold (carried_out self (run_panes self before)) in Hlines, Hsamecmd, Hstate1.
  destruct (exec world past1 (carried_out self (run_panes self before)))
    as [self1 t1]. simpl in Hlines, Hsamecmd, Hstate1.
  rewrite run_panes_cons in *.
  destruct (Hcap (past1 ++ t1)) as (text & Htext & Hidle).
  pose proof (watched_idle_step (past1 ++ t1) self self1 pane pattern text)
    as Hstep.
  rewrite <- Hsamecmd, <- Hlines, Hstate1 in Hstep.
  specialize (Hstep Hcmd Hmatch Hseen Htext Hidle).
  destruct (exec world (past1 ++ t1) (carried_out self (run_pane self1 pane)))
    as [self2 t2]. destruct Hstep as [Hnotified Hstate2].
  pose proof (yields_exec world _ _ ((past1 ++ t1) ++ t2)
                (yields_interp (methods self) _ _
                   (frame_run_panes self2 after (pane_id pane) Hafter)))
    as Hstate3.
  fold (carried_out self (run_panes self2 after)) in Hstate3.
  destruct (exec world ((past1 ++ t1) ++ t2)
              (carried_out self (run_panes self2 after))) as [self3 t3].
  simpl in Hstate3.
  fold (carried_out self
          (trigger (time_sleep (interval_seconds self)) ;; Ret self3)) in *.
  rewrite sleep_carried_out in *. simpl in Hsleep |- *.
  split; [|split; [by rewrite Hstate3|done]].
  unfold notifications in *. rewrite !omap_app.
  set_solver.
Qed.

End Watched.

(** ** What is printed *)

Section Printed.
Context `{UnicodeDB}.
Variable world : env.

Lemma log_printed_in_nil : log_printed_in [].
Proof. repeat split. constructor. Qed.

Lemma log_printed_in_app t1 t2 :
  log_printed_in t1 -> log_printed_in t2 -> log_printed_in (t1 ++ t2).
Proof.
  intros (Hlen1 & Hp1 & Hf1) (Hlen2 & Hp2 & Hf2).
  unfold log_printed_in, printed_lines, clock_texts, log_calls in *.
  rewrite !omap_app, !length_app, Hp1, Hp2, zip_with_app by done.
  repeat split; [lia|by apply Forall_app_2].
Qed.

(** Handlers that keep to this keep to it on every program they serve. *)
Lemma log_printed_in_interp (Pev : forall X, event X -> Prop) h :
  (forall X (e : event X) past,
     Pev X e -> log_printed_in (exec world past (h X e)).2) ->
  forall A (p : Prog A) past,
    only Pev p -> log_printed_in (exec world past (interp h p)).2.
Proof.
  intros Hh A p past Hp. revert past.
  induction Hp as [a|X e k He Hk IH]; intros past.
  { apply log_printed_in_nil. }
  change (interp h (Vis e k)) with (h X e ≫= fun x => interp h (k x)).
  rewrite (exec_bind world).
  pose proof (Hh X e past He) as H0.
  destruct (exec world past (h X e)) as [x t0].
  specialize (IH x (past ++ t0)).
  destruct (exec world (past ++ t0) (interp h (k x))) as [a t1].
  by apply log_printed_in_app.
Qed.

Lemma log_call_printed self message past :
  verbose self = true ->
  log_printed_in
    (exec world past (trigger (call_log message) ;; log self message)).2.
Proof.
  intros Hverbose. unfold log. rewrite Hverbose. cbn.
  repeat split. by repeat constructor.
Qed.

Lemma log_method_printed self X (e : event X) past :
  verbose self = true -> plain_event X e ->
  log_printed_in (exec world past (log_method self X e)).2.
Proof.
  intros Hverbose He. destruct e; try done;
    try (cbn; repeat split; by repeat constructor).
  by apply log_call_printed.
Qed.

Lemma methods_printed self X (e : event X) past :
  verbose self = true -> loop_event X e ->
  log_printed_in (exec world past (methods self X e)).2.
Proof.
  intros Hverbose He. destruct e; try done;
    try (cbn; repeat split; by repeat constructor).
  - by apply log_call_printed.
  - change (methods self _ (call_send_idle_notification pane))
      with (trigger (call_send_idle_notification pane) ;;
            interp (log_method self) (_send_idle_notification self pane)).
    rewrite exec_trigger. cbv zeta. cbn [effect_of].
    match goal with
    | |- context [exec world ?p (interp ?h ?d)] =>
        pose proof (log_printed_in_interp plain_event (log_method self)
                      (fun X e past => log_method_printed self X e past Hverbose)
                      _ d p) as Hd;
        destruct (exec world p (interp h d)) as [u td]
    end.
    apply (log_printed_in_app [notified pane] td).
    { repeat split. by repeat constructor. }
    apply Hd. by apply only_send_idle_notification.
Qed.

(** X18. When verbose, the loop prints one line for each call of [log] and
    nothing else, in however many turns: the lines are the messages in the
    order of the calls, each after the time of day in brackets, which is
    asked for as hours, minutes and seconds at every call. *)
Theorem printed_lines_are_stamped_logs turns past self :
  verbose self = true ->
  let tr := (exec world past (carried_out self (run_turns turns self))).2 in
  printed_lines tr = zip_with stamped (clock_texts tr) (log_calls tr)
  /\ length (clock_texts tr) = length (log_calls tr)
  /\ Forall clock_format_ok tr.
Proof.
  intros Hverbose. cbv zeta.
  pose proof (log_printed_in_interp loop_event (methods self)
                (fun X e past => methods_printed self X e past Hverbose)
                _ (run_turns turns self) past) as (Hlen & Hp & Hf).
  { apply only_run_turns. intros self'. apply only_run_cycle; by cbn; auto. }
  done.
Qed.

End Printed.

(** ** The scenario, for a whole turn *)

Lemma dry_run_loop_opens_nothing_witness :
  Forall (fun eff => is_opened eff = false)
    (exec (scenario_world (lit "done") 204) []
       (carried_out (watching true true)
          (run_turns (H := basic_db) 2 (watching true true)))).2.
Proof.
  apply (dry_run_loop_opens_nothing (H := basic_db)). reflexivity.
Defined.

Lemma silent_loop_prints_nothing_witness :
  Forall (fun eff => is_printed eff = false)
    (exec (scenario_world (lit "done") 204) []
       (carried_out (watching false false)
          (run_turns (H := basic_db) 2 (watching false false)))).2.
Proof.
  apply (silent_loop_prints_nothing (H := basic_db)). reflexivity.
Defined.

Lemma listing_failure_skips_turn_witness :
  let self := watching false true in
  let m := lit "no server running on /tmp/tmux-1000/default" in
  let '(self', tr) :=
    exec no_server_world []
      (carried_out self (run_cycle (H := basic_db) self)) in
  self' = self
  /\ runs tr = [list_argv]
  /\ log_calls tr = [lit "Failed to list tmux panes: " ++ m]
  /\ notifications tr = [] /\ deliveries tr = []
  /\ sleeps tr = [7%Z].
Proof.
  cbv zeta.
  apply (listing_failure_skips_turn (H := basic_db) no_server_world []
           (watching false true)
           (RuntimeError (lit "no server running on /tmp/tmux-1000/default"))).
  vm_compute. reflexivity.
Defined.

Lemma example_pane_plain : plain_pane example_pane.
Proof.
  repeat split; repeat (apply Forall_cons; split; [by split|]);
    apply Forall_nil_2.
Qed.

Lemma listed_panes_round_trip_witness :
  let cp := {| returncode := 0; stdout := listing_of [example_pane];
               stderr := [] |} in
  exec (scenario_world (lit "done") 204) []
    (_list_tmux_panes (watching false false))
  = (inr [example_pane], [ran list_argv 5 (inr cp)]).
Proof.
  cbv zeta.
  apply (listed_panes_round_trip (scenario_world (lit "done") 204) []
           (watching false false) [example_pane]).
  - constructor; [apply example_pane_plain|constructor].
  - reflexivity.
  - reflexivity.
  - reflexivity.
Defined.

Lemma listed_panes_are_plain_witness :
  let cp := {| returncode := 0;
               stdout := lit "no tabs here" ++ LF :: listing_of [example_pane];
               stderr := [] |} in
  let world : env := fun X past e =>
    match e in event X return X with
    | subprocess_run _ _ => inr cp
    | e => offline_world _ past e
    end in
  exists panes,
    (exec world [] (_list_tmux_panes (watching false false))).1 = inr panes
    /\ Forall plain_pane panes
    /\ length panes
       = length (filter (fun line => tabs line = 7%nat)
                   (splitlines (stdout cp))).
Proof.
  cbv zeta.
  match goal with
  | |- context [exec ?w [] _] =>
      apply (listed_panes_are_plain w [] (watching false false))
  end; reflexivity.
Defined.

Lemma blank_text_looks_idle_witness :
  _detect_active (H := basic_db) (lit "   " ++ [LF; TAB; CR; LF] ++ lit " ")
  = false.
Proof.
  apply (blank_text_looks_idle (H := basic_db)).
  repeat (apply Forall_cons; split; [reflexivity|]). apply Forall_nil_2.
Defined.

Lemma git_branch_is_stripped_witness :
  let branch := lit "main" in
  branch <> [] /\ branch <> lit "HEAD"
  /\ (forall c, head branch = Some c -> isspace c = false)
  /\ (forall c, last branch = Some c -> isspace c = false)
  /\ exists r,
       (exec offline_world []
          (_get_git_branch (example_notifier false) (lit "/home/u/proj"))).2
       = [ran (git_argv (lit "/home/u/proj")) 5 r].
Proof.
  cbv zeta.
  apply (git_branch_is_stripped offline_world [] (example_notifier false)
           (lit "/home/u/proj") (lit "main")).
  vm_compute. reflexivity.
Defined.

Lemma capture_failure_skips_pane_witness :
  let self := watching false true in
  let m := lit "no server running on /tmp/tmux-1000/default" in
  let '(self', tr) :=
    exec no_server_world []
      (carried_out self (run_pane (H := basic_db) self example_pane)) in
  self' = self
  /\ runs tr = [capture_argv (lit "%3") 120]
  /\ log_calls tr = [lit "Failed to capture " ++ lit "work:0.1" ++ lit ": "
                     ++ m]
  /\ notifications tr = [] /\ deliveries tr = [] /\ clock_readings tr = [].
Proof.
  cbv zeta.
  apply (capture_failure_skips_pane (H := basic_db) no_server_world []
           (watching false true) example_pane
           (fun s => bool_decide (s = lit "cursor-agent"))
           (RuntimeError (lit "no server running on /tmp/tmux-1000/default"))).
  - reflexivity.
  - vm_compute. reflexivity.
  - vm_compute. reflexivity.
Defined.

Lemma turn_notifies_idle_pane_witness :
  let self := watching false true in
  let '(self', tr) :=
    exec (scenario_world (lit "done") 204) []
      (carried_out self (run_cycle (H := basic_db) self)) in
  example_pane ∈ notifications tr
  /\ last_seen_active (state_of self' (lit "%3")) = Some false
  /\ sleeps tr = [7%Z].
Proof.
  cbv zeta.
  apply (turn_notifies_idle_pane (H := basic_db)
           (scenario_world (lit "done") 204) [] (watching false true)
           [example_pane] example_pane
           (fun s => bool_decide (s = lit "cursor-agent"))).
  - vm_compute. reflexivity.
  - apply NoDup_singleton.
  - left.
  - reflexivity.
  - vm_compute. reflexivity.
  - vm_compute. reflexivity.
  - intros past'. exists (lit "done"). split; [reflexivity|].
    vm_compute. reflexivity.
Defined.

Lemma printed_lines_are_stamped_logs_witness :
  let tr :=
    (exec (scenario_world (lit "done") 204) []
       (carried_out (watching false true)
          (run_turns (H := basic_db) 1 (watching false true)))).2 in
  printed_lines tr = zip_with stamped (clock_texts tr) (log_calls tr)
  /\ length (clock_texts tr) = length (log_calls tr)
  /\ Forall clock_format_ok tr.
Proof.
  apply (printed_lines_are_stamped_logs (H := basic_db)). reflexivity.
Defined.

